(** * CustomMapAPI: lane queries and route reconstruction

    A shallow embedding of [src/lyftl5/custom_map_api.py] (class
    [CustomMapAPI]) and the properties of its lane queries
    ([get_lanes_ids_at], [get_closest_lanes_ids], [get_lane_progress]) and of
    its route reconstruction ([get_route]).

    Conventions of the embedding.
    - Python exceptions are values: a computation returns [Ok v] or
      [Raise e]; the only loop that is not a [for] over a finite sequence
      (the backtrack [while] of [get_route]) takes fuel and returns
      [OutOfFuel] when it is exhausted.
    - A coordinate is the exact value of its [np.float64] number, a rational
      ([Q]); comparisons, [min] and [max] are exact on float64 values.
      NumPy's rounded arithmetic ([np.linalg.norm] of a difference,
      [np.linspace]) is part of the interface [Externals], and the
      implementation of it used on concrete inputs computes in binary64.
    - A Python [dict] is an insertion-ordered association list with unique
      keys ([Dict]): iteration order is insertion order, as in CPython.
    - What the class inherits from l5kit and NumPy and what this repository
      does not define ([np.argsort], [np.linalg.norm], [np.linspace],
      [indices_in_bounds]) is an interface ([Externals]) with the contract
      the callers rely on. *)

From Stdlib Require Import List String Bool Arith ZArith Lia QArith Qminmax Lqa.
From Stdlib Require PrimFloat FloatOps SpecFloat Uint63.
From Stdlib Require Import Permutation Sorted.
Import ListNotations.

Set Implicit Arguments.
Open Scope string_scope.
Open Scope list_scope.

(** ** Exceptions and results *)

Inductive exn : Type :=
| KeyError
| IndexError
| ValueError
| AssertionError.

Inductive result (A : Type) : Type :=
| Ok (a : A)
| Raise (e : exn)
| OutOfFuel.

Arguments Ok {A} a.
Arguments Raise {A} e.
Arguments OutOfFuel {A}.

Definition bind {A B : Type} (c : result A) (k : A -> result B) : result B :=
  match c with
  | Ok a => k a
  | Raise e => Raise e
  | OutOfFuel => OutOfFuel
  end.

Notation "x <- c ;; k" := (bind c (fun x => k))
  (at level 61, c at next level, right associativity).
Notation "' pat <- c ;; k" := (bind c (fun x => match x with pat => k end))
  (at level 61, pat pattern, c at next level, right associativity).

(** A Python [for x in l: s = body(s, x)] whose body may raise. *)
Fixpoint foldM {A S : Type} (body : S -> A -> result S) (l : list A) (s : S)
  : result S :=
  match l with
  | [] => Ok s
  | x :: l' => s' <- body s x ;; foldM body l' s'
  end.

Definition raises {A : Type} (c : result A) : Prop := exists e, c = Raise e.

(** ** Sequences *)

(** [a[i]] on a list or array: a negative index counts from the end, an index
    out of range raises [IndexError]. *)
Definition getitem {A : Type} (a : list A) (i : Z) : result A :=
  let n := Z.of_nat (List.length a) in
  let j := if (i <? 0)%Z then (i + n)%Z else i in
  if ((0 <=? j) && (j <? n))%Z
  then match nth_error a (Z.to_nat j) with
       | Some x => Ok x
       | None => Raise IndexError
       end
  else Raise IndexError.

(** [a[idx]] with an integer index array, and [np.take(a, idx)]. *)
Definition take_indices {A : Type} (a : list A) (idx : list nat)
  : result (list A) :=
  foldM (fun acc i => x <- getitem a (Z.of_nat i) ;; Ok (acc ++ [x])) idx [].

(** [x in l] for a list of strings. *)
Definition mem_str (x : string) (l : list string) : bool :=
  existsb (String.eqb x) l.

(** ** Dictionaries: insertion-ordered, unique keys *)

Module Dict.
Section Dict.
Context {V : Type}.

Definition t : Type := list (string * V).

Definition empty : t := [].

Definition keys (d : t) : list string := map fst d.

Fixpoint get (d : t) (k : string) : option V :=
  match d with
  | [] => None
  | (k', v) :: d' => if String.eqb k k' then Some v else get d' k
  end.

(** [k in d] *)
Definition mem (d : t) (k : string) : bool :=
  match get d k with Some _ => true | None => false end.

(** [d[k]] *)
Definition getitem (d : t) (k : string) : result V :=
  match get d k with Some v => Ok v | None => Raise KeyError end.

(** [d[k] = v]: an existing key keeps its place, a new one goes last. *)
Fixpoint set (d : t) (k : string) (v : V) : t :=
  match d with
  | [] => [(k, v)]
  | (k', v') :: d' =>
      if String.eqb k k' then (k', v) :: d' else (k', v') :: set d' k v
  end.

Fixpoint remove (d : t) (k : string) : t :=
  match d with
  | [] => []
  | (k', v') :: d' =>
      if String.eqb k k' then d' else (k', v') :: remove d' k
  end.

(** [del d[k]] *)
Definition delitem (d : t) (k : string) : result t :=
  if mem d k then Ok (remove d k) else Raise KeyError.
End Dict.
Arguments t : clear implicits.
End Dict.

(** ** Numbers and geometry *)

Definition Qltb (a b : Q) : bool := negb (Qle_bool b a).

(** Python's builtin [min(a, b)] and [max(a, b)]. *)
Definition py_min (a b : Q) : Q := if Qltb b a then b else a.
Definition py_max (a b : Q) : Q := if Qltb a b then b else a.

(** [np.min(a)] and [np.max(a)]: [ValueError] on an empty array. *)
Definition np_min (a : list Q) : result Q :=
  match a with
  | [] => Raise ValueError
  | x :: a' => Ok (fold_left py_min a' x)
  end.

Definition np_max (a : list Q) : result Q :=
  match a with
  | [] => Raise ValueError
  | x :: a' => Ok (fold_left py_max a' x)
  end.

(** A 2D position [np.ndarray([x, y])] and a row of an [xyz] array. *)
Definition vec2 : Type := (Q * Q)%type.
Definition xyz : Type := (Q * Q * Q)%type.

Definition col0 (a : list xyz) : list Q := map (fun p => fst (fst p)) a.
Definition col1 (a : list xyz) : list Q := map (fun p => snd (fst p)) a.
(** [a[:, :2]] *)
Definition cols2 (a : list xyz) : list vec2 := map fst a.

(** [[[x_min, y_min], [x_max, y_max]]] *)
Definition bounds : Type := ((Q * Q) * (Q * Q))%type.

(** A distance, a non-negative number kept as the square root of its square
    [radicand]: [Sqrt q] is the root of [q], and a float64 value [v >= 0] is
    [Sqrt (v * v)]. *)
Inductive dist : Type := Sqrt (radicand : Q).

Definition radicand (d : dist) : Q := match d with Sqrt q => q end.

(** [Sqrt a <= Sqrt b] iff [a <= b], for non-negative radicands. *)
Definition dist_le (a b : dist) : Prop := (radicand a <= radicand b)%Q.
Definition dist_leb (a b : dist) : bool := Qle_bool (radicand a) (radicand b).
Definition dist_eq (a b : dist) : Prop := (radicand a == radicand b)%Q.

(** The Euclidean distance of two points, exactly: the distance the
    specification speaks of. The code computes [np.linalg.norm(a - b)] in
    float64 instead, see [linalg_norm]. *)
Definition euclidean (a b : vec2) : dist :=
  Sqrt ((fst a - fst b) * (fst a - fst b)
        + (snd a - snd b) * (snd a - snd b))%Q.

(** ** The map: elements, lanes and the precomputed bounds table *)

(** A protobuf [GlobalId], decoded; the empty identifier stands for no
    connection. *)
Definition GlobalId : Type := string.

Definition id_as_str (id : GlobalId) : string := id.

(** [bool(s)] for a string. *)
Definition str_bool (s : string) : bool :=
  match s with EmptyString => false | _ => true end.

(** A protobuf [Lane]: adjacency, and the two boundary polylines as l5kit
    decodes them. *)
Record Lane : Type := {
  lanes_ahead : list GlobalId;
  adjacent_lane_change_left : GlobalId;
  adjacent_lane_change_right : GlobalId;
  left_boundary : list xyz;
  right_boundary : list xyz
}.

(** The default instance protobuf returns for an unset [lane] field. *)
Definition default_Lane : Lane :=
  {| lanes_ahead := []; adjacent_lane_change_left := "";
     adjacent_lane_change_right := ""; left_boundary := [];
     right_boundary := [] |}.

Inductive Element : Type :=
| ElementLane (lane : Lane)
| ElementOther.

Record MapElement : Type := {
  id : GlobalId;
  element : Element
}.

(** [element.element.HasField("lane")] and [element.element.lane]. *)
Definition is_lane (el : MapElement) : bool :=
  match element el with ElementLane _ => true | ElementOther => false end.

Definition element_lane (el : MapElement) : Lane :=
  match element el with ElementLane l => l | ElementOther => default_Lane end.

Inductive InterpolationMethod : Type :=
| INTER_METER
| INTER_ENSURE_LEN.

(** The state of a [CustomMapAPI] object: the element table of [MapAPI]
    ([elements], [ids_to_el]), its [bounds_info["lanes"]] table, the
    ["lane_params"] configuration, and the midlane of l5kit's
    [get_lane_as_interpolation], the interpolation service the class
    inherits. *)
Record CustomMapAPI : Type := {
  elements : list MapElement;
  ids_to_el : Dict.t nat;
  bounds_info_lanes_ids : list string;
  bounds_info_lanes_bounds : list bounds;
  max_retrieval_distance_m : Q;
  max_points_per_lane : Z;
  xyz_midlane : string -> Q -> InterpolationMethod -> result (list xyz)
}.

(** What the module imports and this repository does not define. *)
Class Externals : Type := {
  (** [np.argsort(a)] with the default [kind]: the indices of [a] in an order
      that sorts it. The default kind is not a stable sort, so nothing is
      promised about the order of equal entries. *)
  argsort : list dist -> list nat;
  argsort_perm : forall a, Permutation (argsort a) (seq 0 (List.length a));
  argsort_sorted : forall a,
    StronglySorted
      (fun i j => dist_le (nth i a (Sqrt 0)) (nth j a (Sqrt 0))) (argsort a);
  (** l5kit's [indices_in_bounds(center, bounds, half_extent)]: the indices
      of the boxes within [half_extent] of [center]. *)
  indices_in_bounds : vec2 -> list bounds -> Q -> list nat;
  (** The entry of [np.linalg.norm(m - b, axis=-1)] for a row [a] of [m]:
      the float64 value NumPy computes for the distance of [a] and [b],
      rounding the differences, their squares, the sum and the root. Nothing
      is promised about it. *)
  linalg_norm_axis : vec2 -> vec2 -> dist;
  (** [np.linalg.norm(a - b)] for two points: the float64 root of the dot
      product of the difference with itself. Nothing is promised about it,
      nor that it agrees with [linalg_norm_axis] to the last bit. *)
  linalg_norm : vec2 -> vec2 -> dist;
  (** [np.linspace(0, 1, num)]: [num] float64 samples over the closed
      interval from 0 to 1. *)
  linspace01 : nat -> list Q;
  linspace01_length : forall num, List.length (linspace01 num) = num;
  linspace01_range : forall num x, In x (linspace01 num) -> (0 <= x <= 1)%Q
}.

Section API.
Context {ext : Externals}.
Variable self : CustomMapAPI.

Definition get_element (element_id : string) : result MapElement :=
  element_idx <- Dict.getitem (ids_to_el self) element_id ;;
  getitem (elements self) (Z.of_nat element_idx).

Definition get_lane (lane_id : string) : result Lane :=
  element <- get_element lane_id ;;
  Ok (element_lane element).

Definition get_ahead_lanes_ids (lane_id : string) : result (list string) :=
  lane <- get_lane lane_id ;;
  Ok (fold_left
        (fun ahead_lanes_ids ahead_lane =>
           let ahead_lane_id := id_as_str ahead_lane in
           if str_bool ahead_lane_id
           then ahead_lanes_ids ++ [ahead_lane_id]
           else ahead_lanes_ids)
        (lanes_ahead lane) []).

Definition get_change_lanes_ids (lane_id : string) : result (list string) :=
  lane <- get_lane lane_id ;;
  let change_lanes_ids := [] in
  let change_left_lane_id := id_as_str (adjacent_lane_change_left lane) in
  let change_right_lane_id := id_as_str (adjacent_lane_change_right lane) in
  let change_lanes_ids :=
    if str_bool change_left_lane_id
    then change_lanes_ids ++ [change_left_lane_id] else change_lanes_ids in
  let change_lanes_ids :=
    if str_bool change_right_lane_id
    then change_lanes_ids ++ [change_right_lane_id] else change_lanes_ids in
  Ok change_lanes_ids.

Definition get_connected_lanes_ids (lane_id : string)
  : result (list string) :=
  ahead_lanes_ids <- get_ahead_lanes_ids lane_id ;;
  change_lanes_ids <- get_change_lanes_ids lane_id ;;
  Ok (ahead_lanes_ids ++ change_lanes_ids).

(** Modelled from the spec: [get_lane_coords] is inherited from l5kit's
    [MapAPI] and is not in this repository. The lane store "fails with
    NotFoundError when queried with an id absent from the underlying
    element table": the id is resolved through the element table, as
    [get_element] does, the element has to be a lane, and the result holds
    the two boundary polylines. *)
Definition get_lane_coords (element_id : string)
  : result (list xyz * list xyz) :=
  el <- get_element element_id ;;
  match element el with
  | ElementLane lane => Ok (left_boundary lane, right_boundary lane)
  | ElementOther => Raise AssertionError
  end.

Definition get_lane_bounds (lane_id : string) : result bounds :=
  '(xyz_left, xyz_right) <- get_lane_coords lane_id ;;
  lx_min <- np_min (col0 xyz_left) ;; rx_min <- np_min (col0 xyz_right) ;;
  let x_min := py_min lx_min rx_min in
  ly_min <- np_min (col1 xyz_left) ;; ry_min <- np_min (col1 xyz_right) ;;
  let y_min := py_min ly_min ry_min in
  lx_max <- np_max (col0 xyz_left) ;; rx_max <- np_max (col0 xyz_right) ;;
  let x_max := py_max lx_max rx_max in
  ly_max <- np_max (col1 xyz_left) ;; ry_max <- np_max (col1 xyz_right) ;;
  let y_max := py_max ly_max ry_max in
  Ok ((x_min, y_min), (x_max, y_max)).

Definition in_bounds (position : vec2) (bounds : bounds) : bool :=
  let x := fst position in
  let y := snd position in
  let x_min := fst (fst bounds) in
  let y_min := snd (fst bounds) in
  let x_max := fst (snd bounds) in
  let y_max := snd (snd bounds) in
  let x_in := Qltb x_min x && Qltb x x_max in
  let y_in := Qltb y_min y && Qltb y y_max in
  x_in && y_in.

Definition get_lanes_ids_at (position : vec2) : result (list string) :=
  foldM
    (fun lanes_ids element =>
       if negb (is_lane element) then Ok lanes_ids
       else
         let lane_id := id_as_str (id element) in
         lane_bounds <- get_lane_bounds lane_id ;;
         if negb (in_bounds position lane_bounds) then Ok lanes_ids
         else Ok (lanes_ids ++ [lane_id]))
    (elements self) [].

Definition get_closest_lane_midpoints (position : vec2)
  (lane_id : string) : result (list vec2) :=
  let interpolation_method := INTER_METER in
  lane <- xyz_midlane self lane_id 1 interpolation_method ;;
  let midpoints := cols2 lane in
  let midpoints_distance :=
    map (fun m => linalg_norm_axis m position) midpoints in
  take_indices midpoints (argsort midpoints_distance).

Definition get_closest_lanes_ids (position : vec2)
  : result (option (list string)) :=
  let max_lane_distance := max_retrieval_distance_m self in
  let lanes_ids := bounds_info_lanes_ids self in
  let lanes_bounds := bounds_info_lanes_bounds self in
  let lanes_indices :=
    indices_in_bounds position lanes_bounds max_lane_distance in
  if (List.length lanes_indices =? 0)%nat then Ok None
  else
    lanes_distances <-
      foldM
        (fun lanes_distances lane_idx =>
           lane_id <- getitem lanes_ids (Z.of_nat lane_idx) ;;
           closest_midpoints <- get_closest_lane_midpoints position lane_id ;;
           closest_midpoint <- getitem closest_midpoints 0 ;;
           let closest_midpoint_distance :=
             linalg_norm closest_midpoint position in
           Ok (lanes_distances ++ [closest_midpoint_distance]))
        lanes_indices [] ;;
    lanes_indices <- take_indices lanes_indices (argsort lanes_distances) ;;
    closest_lanes_ids <- take_indices lanes_ids lanes_indices ;;
    Ok (Some closest_lanes_ids).

Definition get_lane_progress (position : vec2) (lane_id : string)
  : result Q :=
  let max_lane_points := max_points_per_lane self in
  let interpolation_method := INTER_ENSURE_LEN in
  lane <- xyz_midlane self lane_id (inject_Z max_lane_points)
            interpolation_method ;;
  let midpoints := cols2 lane in
  let progress := linspace01 (List.length midpoints) in
  let midpoints_distance :=
    map (fun m => linalg_norm_axis m position) midpoints in
  progress <- take_indices progress (argsort midpoints_distance) ;;
  getitem progress 0.

(** *** Route reconstruction *)

(** The frontier of [get_route]: [visited_lanes_ids] and
    [unvisited_lanes_ids], each from a lane id to its parent ([None] for a
    starting lane). *)
Definition parents : Type := Dict.t (option string).
Definition frontier : Type := (parents * parents)%type.

(** [for connected_lane_id in connected_lanes_ids: ...] *)
Definition add_connected (visited_lanes_ids : parents) (lane_id : string)
  (connected_lanes_ids : list string) (unvisited_lanes_ids : parents)
  : parents :=
  fold_left
    (fun unvisited_lanes_ids connected_lane_id =>
       if negb (Dict.mem visited_lanes_ids connected_lane_id)
       then Dict.set unvisited_lanes_ids connected_lane_id (Some lane_id)
       else unvisited_lanes_ids)
    connected_lanes_ids unvisited_lanes_ids.

(** The body of [for lane_id in current_lanes_ids]. *)
Definition visit_lane (st : frontier) (lane_id : string) : result frontier :=
  let '(visited_lanes_ids, unvisited_lanes_ids) := st in
  parent <- Dict.getitem unvisited_lanes_ids lane_id ;;
  let visited_lanes_ids := Dict.set visited_lanes_ids lane_id parent in
  unvisited_lanes_ids <- Dict.delitem unvisited_lanes_ids lane_id ;;
  connected_lanes_ids <- get_connected_lanes_ids lane_id ;;
  Ok (visited_lanes_ids,
      add_connected visited_lanes_ids lane_id connected_lanes_ids
        unvisited_lanes_ids).

(** [current_lanes_ids]: the unvisited lanes whose bounds contain the
    position, in the order of the dictionary. *)
Definition get_current_lanes_ids (position : vec2)
  (unvisited_lanes_ids : parents) : result (list string) :=
  foldM
    (fun current_lanes_ids lane_id =>
       lane_bounds <- get_lane_bounds lane_id ;;
       if negb (in_bounds position lane_bounds) then Ok current_lanes_ids
       else Ok (current_lanes_ids ++ [lane_id]))
    (Dict.keys unvisited_lanes_ids) [].

(** The body of [for frame_idx, position in enumerate(trajectory)] for
    [frame_idx >= 1]. *)
Definition process_frame (st : frontier) (position : vec2)
  : result frontier :=
  current_lanes_ids <- get_current_lanes_ids position (snd st) ;;
  foldM visit_lane current_lanes_ids st.

(** The frontier before the first frame: every initial lane unvisited,
    without parent. *)
Definition seed (initial_lanes_ids : list string) : frontier :=
  (Dict.empty,
   fold_left (fun unvisited_lanes_ids initial_lane_id =>
                Dict.set unvisited_lanes_ids initial_lane_id None)
     initial_lanes_ids Dict.empty).

(** The frame loop; frame 0 is skipped. *)
Definition frontier_loop (frames : list vec2) (st : frontier)
  : result frontier :=
  foldM process_frame frames st.

(** [while not any(x in initial_lanes_ids for x in route): ...]. The
    variable [lane_id] holds a lane id or [None]; [None] is no key of
    [visited_lanes_ids], so the lookup raises [KeyError] on it. *)
Fixpoint backtrack (fuel : nat) (visited_lanes_ids : parents)
  (initial_lanes_ids : list string) (route : list string)
  (lane_id : option string) : result (list string) :=
  if existsb (fun x => mem_str x initial_lanes_ids) route then Ok route
  else
    match fuel with
    | O => OutOfFuel
    | S fuel' =>
        match lane_id with
        | None => Raise KeyError
        | Some l =>
            let route := l :: route in
            lane_id <- Dict.getitem visited_lanes_ids l ;;
            backtrack fuel' visited_lanes_ids initial_lanes_ids route lane_id
        end
    end.

(** [for final_lane_id in final_lanes_ids: ...; break]. *)
Fixpoint find_route (fuel : nat) (visited_lanes_ids : parents)
  (initial_lanes_ids final_lanes_ids : list string)
  : result (option (list string)) :=
  match final_lanes_ids with
  | [] => Ok None
  | final_lane_id :: rest =>
      if negb (Dict.mem visited_lanes_ids final_lane_id)
      then find_route fuel visited_lanes_ids initial_lanes_ids rest
      else
        route <- backtrack fuel visited_lanes_ids initial_lanes_ids []
                   (Some final_lane_id) ;;
        Ok (Some route)
  end.

Definition get_route (fuel : nat) (trajectory : list vec2)
  : result (option (list string)) :=
  initial_position <- getitem trajectory 0 ;;
  final_position <- getitem trajectory (-2) ;;
  initial_lanes_ids <- get_lanes_ids_at initial_position ;;
  final_lanes_ids <- get_lanes_ids_at final_position ;;
  '(visited_lanes_ids, _) <-
    frontier_loop (tl trajectory) (seed initial_lanes_ids) ;;
  find_route fuel visited_lanes_ids initial_lanes_ids final_lanes_ids.

(** The two lane lists [get_route] starts from. *)
Definition initial_lanes_ids_of (trajectory : list vec2)
  : result (list string) :=
  initial_position <- getitem trajectory 0 ;;
  get_lanes_ids_at initial_position.

Definition final_lanes_ids_of (trajectory : list vec2)
  : result (list string) :=
  final_position <- getitem trajectory (-2) ;;
  get_lanes_ids_at final_position.
End API.

(** * Specification vocabulary *)

(** ** Containment in a bounding box *)

Definition x_min (b : bounds) : Q := fst (fst b).
Definition y_min (b : bounds) : Q := snd (fst b).
Definition x_max (b : bounds) : Q := fst (snd b).
Definition y_max (b : bounds) : Q := snd (snd b).

Definition strictly_inside (p : vec2) (b : bounds) : Prop :=
  (x_min b < fst p /\ fst p < x_max b /\ y_min b < snd p /\ snd p < y_max b)%Q.

Definition on_edge (p : vec2) (b : bounds) : Prop :=
  (fst p == x_min b \/ fst p == x_max b \/
   snd p == y_min b \/ snd p == y_max b)%Q.

(** The bounds of the lane strictly contain [p]. *)
Definition contains (self : CustomMapAPI) (p : vec2) (lane_id : string)
  : Prop :=
  exists b, get_lane_bounds self lane_id = Ok b /\ strictly_inside p b.

(** [lane_id] is the id of a lane among the elements [els]. *)
Definition lane_element_in (els : list MapElement) (lane_id : string) : Prop :=
  exists el, In el els /\ is_lane el = true /\ id_as_str (id el) = lane_id.

(** ** Nearest lanes *)

(** The coarse candidates of [get_closest_lanes_ids]: the indices
    [indices_in_bounds] returns for the retrieval distance. *)
Definition coarse_candidates {ext : Externals} (self : CustomMapAPI)
  (p : vec2) : list nat :=
  indices_in_bounds p (bounds_info_lanes_bounds self)
    (max_retrieval_distance_m self).

(** The candidate lanes in their original order: the ids at the coarse
    candidate indices. *)
Definition candidate_ids {ext : Externals} (self : CustomMapAPI) (p : vec2)
  : result (list string) :=
  take_indices (bounds_info_lanes_ids self) (coarse_candidates self p).

(** [d] is the distance the code computes from [p] to a nearest midpoint of
    the lane, resampled at a fixed step of one metre: the norm of the
    difference for a midpoint [m] that no midpoint of the lane beats in the
    norms computed along the rows of the midpoints. *)
Definition nearest_midpoint_distance {ext : Externals} (self : CustomMapAPI)
  (p : vec2) (lane_id : string) (d : dist) : Prop :=
  exists lane m,
    xyz_midlane self lane_id 1 INTER_METER = Ok lane /\
    In m (cols2 lane) /\
    (forall m', In m' (cols2 lane) ->
       dist_le (linalg_norm_axis m p) (linalg_norm_axis m' p)) /\
    d = linalg_norm m p.

Definition distances {ext : Externals} (p : vec2) (midpoints : list vec2)
  : list dist :=
  map (fun m => linalg_norm_axis m p) midpoints.

(** The body of the loop of [get_closest_lanes_ids] that fills
    [lanes_distances]. *)
Definition distance_body {ext : Externals} (self : CustomMapAPI) (p : vec2)
  (lanes_distances : list dist) (lane_idx : nat) : result (list dist) :=
  lane_id <- getitem (bounds_info_lanes_ids self) (Z.of_nat lane_idx) ;;
  closest_midpoints <- get_closest_lane_midpoints self p lane_id ;;
  closest_midpoint <- getitem closest_midpoints 0 ;;
  let closest_midpoint_distance := linalg_norm closest_midpoint p in
  Ok (lanes_distances ++ [closest_midpoint_distance]).

Definition candidate_distance {ext : Externals} (self : CustomMapAPI)
  (p : vec2) (lane_idx : nat) (d : dist) : Prop :=
  exists lane_id,
    nth_error (bounds_info_lanes_ids self) lane_idx = Some lane_id /\
    nearest_midpoint_distance self p lane_id d.

(** A candidate whose lane is listed and has a midpoint. *)
Definition rankable (self : CustomMapAPI) (lane_idx : nat) : Prop :=
  exists lane_id lane,
    nth_error (bounds_info_lanes_ids self) lane_idx = Some lane_id /\
    xyz_midlane self lane_id 1 INTER_METER = Ok lane /\ lane <> [].

(** The candidate lanes in the order [argsort] gives to the distances
    [ds]. *)
Definition ranked {ext : Externals} (self : CustomMapAPI) (p : vec2)
  (ds : list dist) : list string :=
  map (fun k => nth (nth k (coarse_candidates self p) 0%nat)
                  (bounds_info_lanes_ids self) "")
    (argsort ds).



(** ** Progress along a lane *)

(** The [i]-th of [num] uniformly spaced values over [0, 1]. *)
Definition uniform (num i : nat) : Q :=
  if (num =? 1)%nat then 0
  else inject_Z (Z.of_nat i) / inject_Z (Z.of_nat (num - 1)).

(** ** The frontier, step by step

    [get_route] changes the frontier in two ways only: it visits a lane
    ([visited_lanes_ids[lane_id] = unvisited_lanes_ids[lane_id]] followed by
    [del unvisited_lanes_ids[lane_id]]), and it records a connected lane that
    is not visited as unvisited, with a visited lane as parent. *)

Inductive frontier_step : frontier -> frontier -> Prop :=
| step_visit (v u : parents) (lane_id : string) (parent : option string) :
    Dict.get u lane_id = Some parent ->
    frontier_step (v, u) (Dict.set v lane_id parent, Dict.remove u lane_id)
| step_connect (v u : parents) (lane_id connected_lane_id : string) :
    Dict.mem v lane_id = true ->
    Dict.mem v connected_lane_id = false ->
    frontier_step (v, u) (v, Dict.set u connected_lane_id (Some lane_id)).

Inductive frontier_steps : frontier -> frontier -> Prop :=
| steps_refl (st : frontier) : frontier_steps st st
| steps_step (st1 st2 st3 : frontier) :
    frontier_step st1 st2 -> frontier_steps st2 st3 -> frontier_steps st1 st3.

Definition disjoint (st : frontier) : Prop :=
  forall k, Dict.mem (fst st) k = true -> Dict.mem (snd st) k = false.

(** What holds of the frontier all along: the two dictionaries share no
    key; a lane without parent is an initial lane; the parent of a lane is
    visited, and was visited before the lane ([depth] counts the parents up
    to a lane without parent). *)
Record frontier_inv (initial_lanes_ids : list string) (st : frontier)
  : Prop := {
  inv_nodup : NoDup (Dict.keys (snd st));
  inv_disjoint : disjoint st;
  inv_unvisited_parent : forall k p,
    Dict.get (snd st) k = Some (Some p) -> Dict.mem (fst st) p = true;
  inv_unvisited_root : forall k,
    Dict.get (snd st) k = Some None -> In k initial_lanes_ids;
  inv_visited_root : forall k,
    Dict.get (fst st) k = Some None -> In k initial_lanes_ids;
  inv_depth : exists depth : string -> nat,
    (forall k, Dict.mem (fst st) k = true ->
               (depth k < List.length (fst st))%nat) /\
    (forall k p, Dict.get (fst st) k = Some (Some p) ->
                 Dict.mem (fst st) p = true /\ (depth p < depth k)%nat)
}.

(** ** An implementation of the external interface

    Sorting indices by insertion, with [before] the order [<=]: equal
    entries stay in index order, as with NumPy's default sort on arrays of
    at most 16 entries, which it sorts by insertion. *)

Definition key (a : list dist) (i : nat) : dist := nth i a (Sqrt 0).

Fixpoint insert_index (before : dist -> dist -> bool) (a : list dist)
  (i : nat) (l : list nat) : list nat :=
  match l with
  | [] => [i]
  | j :: l' =>
      if before (key a i) (key a j) then i :: j :: l'
      else j :: insert_index before a i l'
  end.

Definition insertion_argsort (before : dist -> dist -> bool) (a : list dist)
  : list nat :=
  fold_right (insert_index before a) [] (seq 0 (List.length a)).

Definition stable_argsort : list dist -> list nat :=
  insertion_argsort dist_leb.

(** [np.linspace(0, 1, num)] in exact arithmetic: [i * (1 / (num - 1))] for
    [i < num], the last entry set to the stop value; [[0]] when [num = 1].
    For [num <= 3] these are the float64 values NumPy returns. *)
Definition exact_linspace01 (num : nat) : list Q :=
  match num with
  | 0%nat => []
  | 1%nat => [0%Q]
  | S (S m) =>
      let div := inject_Z (Z.of_nat (S m)) in
      let step := (1 / div)%Q in
      map (fun i => (inject_Z (Z.of_nat i) * step + 0)%Q) (seq 0 (S m)) ++ [1%Q]
  end.

(** Binary64 arithmetic: a rational to the nearest float64 (exactly, when it
    is the value of one), and the value of a finite float64. *)
Definition Z2F (z : Z) : PrimFloat.float :=
  match z with
  | Z0 => PrimFloat.zero
  | Zpos _ => PrimFloat.of_uint63 (Uint63.of_Z z)
  | Zneg p => PrimFloat.opp (PrimFloat.of_uint63 (Uint63.of_Z (Zpos p)))
  end.

Definition Q2F (q : Q) : PrimFloat.float :=
  PrimFloat.div (Z2F (Qnum q)) (Z2F (Zpos (Qden q))).

Definition F2Q (f : PrimFloat.float) : Q :=
  match FloatOps.Prim2SF f with
  | SpecFloat.S754_finite s m e =>
      let n := if s then Zneg m else Zpos m in
      match e with
      | Z0 => inject_Z n
      | Zpos p => inject_Z (n * 2 ^ Zpos p)
      | Zneg p => Qmake n (2 ^ p)
      end
  | _ => 0%Q
  end.

(** [np.linalg.norm(a - b)] in binary64, rounding to nearest: the root of
    the sum of the squares of the two differences. *)
Definition float64_norm (a b : vec2) : dist :=
  let dx := PrimFloat.sub (Q2F (fst a)) (Q2F (fst b)) in
  let dy := PrimFloat.sub (Q2F (snd a)) (Q2F (snd b)) in
  let v :=
    F2Q (PrimFloat.sqrt
           (PrimFloat.add (PrimFloat.mul dx dx) (PrimFloat.mul dy dy))) in
  Sqrt (v * v)%Q.

(** The bounding boxes within [half_extent] of [center], by index: the test
    of [in_bounds] on each box grown by [half_extent]. *)
Definition box_indices (center : vec2) (bounds : list bounds)
  (half_extent : Q) : list nat :=
  filter
    (fun i =>
       match nth_error bounds i with
       | Some b =>
           in_bounds center
             ((fst (fst b) - half_extent, snd (fst b) - half_extent),
              (fst (snd b) + half_extent, snd (snd b) + half_extent))%Q
       | None => false
       end)
    (seq 0 (List.length bounds)).

(** ** A test map

    Three lanes in a row, each a 10 x 10 box: [A] = (0,0)-(10,10) with [B]
    ahead, [B] = (10,0)-(20,10) with [C] ahead, [C] = (20,0)-(30,10). The
    midlane of a lane is its centre line, sampled at both ends and in the
    middle. *)

Module TestMap.
Definition box_lane (x0 : Q) (ahead : list GlobalId) (left right : GlobalId)
  : Lane :=
  {| lanes_ahead := ahead;
     adjacent_lane_change_left := left;
     adjacent_lane_change_right := right;
     left_boundary := [(x0, 10, 0); (x0 + 10, 10, 0)]%Q;
     right_boundary := [(x0, 0, 0); (x0 + 10, 0, 0)]%Q |}.

Definition midlane_of (x0 : Q) : list xyz :=
  [(x0, 5, 0); (x0 + 5, 5, 0); (x0 + 10, 5, 0)]%Q.

Definition midlanes (lane_id : string) (step : Q)
  (method : InterpolationMethod) : result (list xyz) :=
  if String.eqb lane_id "A" then Ok (midlane_of 0)
  else if String.eqb lane_id "B" then Ok (midlane_of 10)
  else if String.eqb lane_id "C" then Ok (midlane_of 20)
  else Raise KeyError.

Definition chain : CustomMapAPI :=
  {| elements :=
       [ {| id := "A"; element := ElementLane (box_lane 0 ["B"] "" "") |};
         {| id := "B"; element := ElementLane (box_lane 10 ["C"] "" "") |};
         {| id := "C"; element := ElementLane (box_lane 20 [] "" "") |} ];
     ids_to_el := [("A", 0%nat); ("B", 1%nat); ("C", 2%nat)];
     bounds_info_lanes_ids := ["A"; "B"; "C"];
     bounds_info_lanes_bounds :=
       [((0, 0), (10, 10)); ((10, 0), (20, 10)); ((20, 0), (30, 10))]%Q;
     max_retrieval_distance_m := 4;
     max_points_per_lane := 3;
     xyz_midlane := midlanes |}.

(** The same map cut after [A]: [A] still names [B] ahead, but the element
    table holds no [B]. *)
Definition cut : CustomMapAPI :=
  {| elements :=
       [ {| id := "A"; element := ElementLane (box_lane 0 ["B"] "" "") |} ];
     ids_to_el := [("A", 0%nat)];
     bounds_info_lanes_ids := ["A"];
     bounds_info_lanes_bounds := [((0, 0), (10, 10))]%Q;
     max_retrieval_distance_m := 4;
     max_points_per_lane := 3;
     xyz_midlane := midlanes |}.

(** Two lanes that overlap: [A] = (0,0)-(10,10) with [B] ahead, and [B] =
    (5,0)-(15,10). *)
Definition overlap : CustomMapAPI :=
  {| elements :=
       [ {| id := "A"; element := ElementLane (box_lane 0 ["B"] "" "") |};
         {| id := "B"; element := ElementLane (box_lane 5 [] "" "") |} ];
     ids_to_el := [("A", 0%nat); ("B", 1%nat)];
     bounds_info_lanes_ids := ["A"; "B"];
     bounds_info_lanes_bounds := [((0, 0), (10, 10)); ((5, 0), (15, 10))]%Q;
     max_retrieval_distance_m := 4;
     max_points_per_lane := 3;
     xyz_midlane := midlanes |}.

Definition drive : list vec2 :=
  [(5, 5); (5, 5); (15, 5); (25, 5); (25, 5)]%Q.
End TestMap.

(** ** Further vocabulary *)

(** [Sqrt a < Sqrt b] *)
Definition dist_lt (a b : dist) : Prop := (radicand a < radicand b)%Q.

(** The order of two midpoints by the distance from [p] the code
    computes. *)
Definition nearer {ext : Externals} (p : vec2) (m1 m2 : vec2) : Prop :=
  dist_le (linalg_norm_axis m1 p) (linalg_norm_axis m2 p).

(** The [x], [y] part of a row of an [xyz] array. *)
Definition xy (pt : xyz) : vec2 := fst pt.

(** The ids [get_connected_lanes_ids] keeps of a lane record: the non-empty
    ids ahead, in order, then the left and the right lane change. *)
Definition connections (lane : Lane) : list string :=
  filter str_bool (map id_as_str (lanes_ahead lane)) ++
  filter str_bool
    [id_as_str (adjacent_lane_change_left lane);
     id_as_str (adjacent_lane_change_right lane)].

(** The element is a lane whose bounds are defined and strictly contain
    [p]. *)
Definition lane_contains_b (self : CustomMapAPI) (p : vec2) (el : MapElement)
  : bool :=
  is_lane el &&
  match get_lane_bounds self (id_as_str (id el)) with
  | Ok b => in_bounds p b
  | _ => false
  end.

(** Each lane of [r] but the first has the lane before it as parent. *)
Fixpoint parent_chain (v : parents) (r : list string) : Prop :=
  match r with
  | a :: (b :: _) as r' => Dict.get v b = Some (Some a) /\ parent_chain v r'
  | _ => True
  end.

(** Each lane of [r] but the first is connected to the lane before it: ahead
    of it, or a lane change away. *)
Fixpoint connected_path (self : CustomMapAPI) (r : list string) : Prop :=
  match r with
  | a :: (b :: _) as r' =>
      (exists cs, get_connected_lanes_ids self a = Ok cs /\ In b cs) /\
      connected_path self r'
  | _ => True
  end.

(** Every parent recorded in the frontier names the child among its
    connected lanes. *)
Definition parents_connected (self : CustomMapAPI) (st : frontier) : Prop :=
  forall k p,
    Dict.get (fst st) k = Some (Some p) \/ Dict.get (snd st) k = Some (Some p) ->
    exists cs, get_connected_lanes_ids self p = Ok cs /\ In k cs.

(** The invariant of the frontier, with the parents connected. *)
Definition frontier_ok (self : CustomMapAPI) (initial_lanes_ids : list string)
  (st : frontier) : Prop :=
  frontier_inv initial_lanes_ids st /\ parents_connected self st.

(** The bounds of lane [k] strictly contain one of the positions. *)
Definition sampled (self : CustomMapAPI) (positions : list vec2) (k : string)
  : Prop :=
  exists position, In position positions /\ contains self position k.

(** The first of [final_lanes_ids] that is visited. *)
Fixpoint first_visited (visited_lanes_ids : parents)
  (final_lanes_ids : list string) : option string :=
  match final_lanes_ids with
  | [] => None
  | f :: rest =>
      if Dict.mem visited_lanes_ids f then Some f
      else first_visited visited_lanes_ids rest
  end.

(** [progress] is the progress value of a midpoint of the lane that is
    nearest to [p] in Euclidean distance. *)
Definition progress_of_euclidean_nearest {ext : Externals}
  (self : CustomMapAPI) (p : vec2) (lane_id : string) (progress : Q) : Prop :=
  exists lane i value,
    xyz_midlane self lane_id (inject_Z (max_points_per_lane self))
      INTER_ENSURE_LEN = Ok lane /\
    nth_error (linspace01 (List.length (cols2 lane))) i = Some value /\
    (progress == value)%Q /\
    forall m, In m (cols2 lane) ->
      dist_le (euclidean (nth i (cols2 lane) (0, 0)%Q) p) (euclidean m p).

(** ** More test maps *)

Module Rounding.
(** Lanes [A] and [B] with one midpoint each, (1024, 2^-20) and (1024, 0),
    and lane [T] with these two midpoints: seen from the origin the second
    point is nearer, and float64 gives both the distance 1024. *)
Definition midlanes (lane_id : string) (step : Q)
  (method : InterpolationMethod) : result (list xyz) :=
  if String.eqb lane_id "A" then Ok [(1024, 1 # 1048576, 0)]%Q
  else if String.eqb lane_id "B" then Ok [(1024, 0, 0)]%Q
  else if String.eqb lane_id "T"
       then Ok [(1024, 1 # 1048576, 0); (1024, 0, 0)]%Q
  else Raise KeyError.

Definition side_lane : Lane :=
  {| lanes_ahead := [];
     adjacent_lane_change_left := "";
     adjacent_lane_change_right := "";
     left_boundary := [(1000, 1, 0); (1100, 1, 0)]%Q;
     right_boundary := [(1000, -1, 0); (1100, -1, 0)]%Q |}.

Definition ties : CustomMapAPI :=
  {| elements :=
       [ {| id := "A"; element := ElementLane side_lane |};
         {| id := "B"; element := ElementLane side_lane |};
         {| id := "T"; element := ElementLane side_lane |} ];
     ids_to_el := [("A", 0%nat); ("B", 1%nat); ("T", 2%nat)];
     bounds_info_lanes_ids := ["A"; "B"];
     bounds_info_lanes_bounds :=
       [((1000, -1), (1100, 1)); ((1000, -1), (1100, 1))]%Q;
     max_retrieval_distance_m := 2000;
     max_points_per_lane := 2;
     xyz_midlane := midlanes |}.
End Rounding.

Module EdgeMaps.
(** A lane without left boundary, and a lane [E] whose midlane has no
    point. *)
Definition no_midpoints (lane_id : string) (step : Q)
  (method : InterpolationMethod) : result (list xyz) :=
  if String.eqb lane_id "E" then Ok [] else TestMap.midlanes lane_id step method.

Definition broken : CustomMapAPI :=
  {| elements :=
       [ {| id := "A";
            element := ElementLane (TestMap.box_lane 0 ["B"; ""] "" "C") |};
         {| id := "E";
            element :=
              ElementLane
                {| lanes_ahead := [];
                   adjacent_lane_change_left := "";
                   adjacent_lane_change_right := "";
                   left_boundary := [];
                   right_boundary := [(50, 0, 0); (60, 0, 0)]%Q |} |};
         {| id := "S"; element := ElementOther |} ];
     ids_to_el := [("A", 0%nat); ("E", 1%nat); ("S", 2%nat); ("Z", 7%nat)];
     bounds_info_lanes_ids := ["A"; "E"];
     bounds_info_lanes_bounds :=
       [((0, 0), (10, 10)); ((50, 0), (60, 0))]%Q;
     max_retrieval_distance_m := 4;
     max_points_per_lane := 3;
     xyz_midlane := no_midpoints |}.

(** Lane [A] with two lanes ahead, [B] and [C], side by side over the same
    box (10,0)-(20,10). *)
Definition fork : CustomMapAPI :=
  {| elements :=
       [ {| id := "A";
            element := ElementLane (TestMap.box_lane 0 ["B"; "C"] "" "") |};
         {| id := "B";
            element := ElementLane (TestMap.box_lane 10 [] "" "C") |};
         {| id := "C";
            element := ElementLane (TestMap.box_lane 10 [] "B" "") |} ];
     ids_to_el := [("A", 0%nat); ("B", 1%nat); ("C", 2%nat)];
     bounds_info_lanes_ids := ["A"; "B"; "C"];
     bounds_info_lanes_bounds :=
       [((0, 0), (10, 10)); ((10, 0), (20, 10)); ((10, 0), (20, 10))]%Q;
     max_retrieval_distance_m := 4;
     max_points_per_lane := 3;
     xyz_midlane := TestMap.midlanes |}.
End EdgeMaps.

(** * Properties *)

(** ** Results and loops *)

Lemma bind_Ok {A B : Type} (c : result A) (k : A -> result B) (b : B) :
  bind c k = Ok b <-> exists a, c = Ok a /\ k a = Ok b.
Proof.
  destruct c as [a|e|]; simpl; split.
  - intros H. now exists a.
  - now intros (a' & [= ->] & H).
  - discriminate.
  - now intros (a' & [=] & _).
  - discriminate.
  - now intros (a' & [=] & _).
Qed.

Lemma bind_raises_l {A B : Type} (c : result A) (k : A -> result B) :
  raises c -> raises (bind c k).
Proof. intros [e ->]. now exists e. Qed.

(** Inverts every [bind ... = Ok _] hypothesis. *)
Ltac inv_bind :=
  repeat match goal with
    | H : bind _ _ = Ok _ |- _ =>
        let a := fresh "a" in
        let Ha := fresh "Ha" in
        apply bind_Ok in H; destruct H as (a & Ha & H)
    | H : Ok _ = Ok _ |- _ => injection H as H
    end.

Lemma foldM_app {A S : Type} (body : S -> A -> result S) l1 l2 s :
  foldM body (l1 ++ l2) s = (s' <- foldM body l1 s ;; foldM body l2 s').
Proof.
  revert s. induction l1 as [|x l1 IH]; intros s; simpl; [reflexivity|].
  destruct (body s x); simpl; auto.
Qed.

(** An invariant of the loop body is an invariant of the loop. *)
Lemma foldM_invariant {A S : Type} (I : S -> Prop) (body : S -> A -> result S)
  (l : list A) :
  (forall s x s', In x l -> I s -> body s x = Ok s' -> I s') ->
  forall s s', I s -> foldM body l s = Ok s' -> I s'.
Proof.
  induction l as [|x l IH]; simpl; intros Hb s s' Hs H.
  - now injection H as <-.
  - inv_bind. eapply IH; [| |exact H].
    + intros; eapply Hb; eauto.
    + eapply Hb; eauto.
Qed.

(** A loop never runs out of fuel when its body does not. *)
Lemma foldM_fuel {A S : Type} (body : S -> A -> result S) (l : list A) :
  (forall s x, body s x <> OutOfFuel) ->
  forall s, foldM body l s <> OutOfFuel.
Proof.
  intros Hb. induction l as [|x l IH]; intros s; simpl; [discriminate|].
  destruct (body s x) eqn:E; simpl; [apply IH|discriminate|].
  now apply Hb in E.
Qed.

Lemma getitem_nat {A : Type} (a : list A) (i : nat) :
  getitem a (Z.of_nat i) =
  match nth_error a i with Some x => Ok x | None => Raise IndexError end.
Proof.
  unfold getitem.
  destruct (Z.of_nat i <? 0)%Z eqn:E; [apply Z.ltb_lt in E; lia|].
  rewrite Nat2Z.id.
  destruct (nth_error a i) eqn:En.
  - assert (i < List.length a)%nat by (apply nth_error_Some; congruence).
    replace ((0 <=? Z.of_nat i) && (Z.of_nat i <? Z.of_nat (List.length a)))%Z
      with true; [reflexivity|].
    symmetry. apply andb_true_iff. split; [apply Z.leb_le|apply Z.ltb_lt]; lia.
  - now destruct ((0 <=? Z.of_nat i) && _)%Z.
Qed.

Lemma getitem_not_fuel {A : Type} (a : list A) (i : Z) :
  getitem a i <> OutOfFuel.
Proof.
  unfold getitem. destruct (_ && _)%bool; [|discriminate].
  destruct (nth_error _ _); discriminate.
Qed.

(** Indexing by an index array succeeds exactly when every index is in
    range, and then returns the entries in the order of the indices. *)
Lemma take_indices_acc {A : Type} (a : list A) (idx : list nat) acc r :
  foldM (fun acc i => x <- getitem a (Z.of_nat i) ;; Ok (acc ++ [x])) idx acc
  = Ok r <->
  exists r', r = acc ++ r' /\ Forall2 (fun i x => nth_error a i = Some x) idx r'.
Proof.
  revert acc r. induction idx as [|i idx IH]; intros acc r; simpl.
  - split.
    + intros [= <-]. exists []. rewrite app_nil_r. auto.
    + intros (r' & -> & H). inversion H. now rewrite app_nil_r.
  - rewrite getitem_nat. destruct (nth_error a i) as [x|] eqn:E; simpl.
    + rewrite IH. split.
      * intros (r' & -> & H). exists (x :: r').
        rewrite <- app_assoc. split; [reflexivity|]. now constructor.
      * intros (r' & -> & H). inversion H as [|? y ? r'' Hy Hr]; subst.
        exists r''. rewrite <- app_assoc. simpl.
        split; [congruence|assumption].
    + split; [discriminate|].
      intros (r' & -> & H). inversion H; congruence.
Qed.

Lemma take_indices_Ok {A : Type} (a : list A) (idx : list nat) r :
  take_indices a idx = Ok r <->
  Forall2 (fun i x => nth_error a i = Some x) idx r.
Proof.
  unfold take_indices. rewrite take_indices_acc. simpl. split.
  - now intros (r' & -> & H).
  - intros H. now exists r.
Qed.

Lemma take_indices_in_range {A : Type} (a : list A) (idx : list nat) (d : A) :
  Forall (fun i => (i < List.length a)%nat) idx ->
  take_indices a idx = Ok (map (fun i => nth i a d) idx).
Proof.
  intros H. apply take_indices_Ok.
  induction H as [|i idx Hi H IH]; simpl; constructor; auto.
  now apply nth_error_nth'.
Qed.

Lemma take_indices_map {A : Type} (a : list A) (idx : list nat) (d : A) r :
  take_indices a idx = Ok r -> r = map (fun i => nth i a d) idx.
Proof.
  rewrite take_indices_Ok. induction 1 as [|i x idx r Hx H IH]; simpl.
  - reflexivity.
  - f_equal; [|assumption]. symmetry. now apply nth_error_nth.
Qed.

(** ** The implementation meets the contracts *)

Section InsertionArgsort.
Variable before : dist -> dist -> bool.
Hypothesis before_true : forall x y, before x y = true -> dist_le x y.
Hypothesis before_false : forall x y, before x y = false -> dist_le y x.

Variable a : list dist.

Lemma insert_index_perm i l : Permutation (insert_index before a i l) (i :: l).
Proof.
  induction l as [|j l IH]; simpl; [reflexivity|].
  destruct (before (key a i) (key a j)); [reflexivity|].
  rewrite IH. apply perm_swap.
Qed.

Lemma insertion_argsort_perm :
  Permutation (insertion_argsort before a) (seq 0 (List.length a)).
Proof.
  unfold insertion_argsort.
  induction (seq 0 (List.length a)) as [|i l IH]; simpl; [reflexivity|].
  rewrite insert_index_perm. now constructor.
Qed.

Lemma dist_le_trans x y z : dist_le x y -> dist_le y z -> dist_le x z.
Proof. unfold dist_le. apply Qle_trans. Qed.

Lemma insert_index_sorted i l :
  StronglySorted (fun i j => dist_le (key a i) (key a j)) l -> StronglySorted (fun i j => dist_le (key a i) (key a j)) (insert_index before a i l).
Proof.
  induction 1 as [|j l Hs IH Hj]; simpl.
  - repeat constructor.
  - destruct (before (key a i) (key a j)) eqn:E.
    + constructor; [now constructor|].
      constructor; [now apply before_true|].
      eapply Forall_impl; [|exact Hj].
      intros k Hk. apply dist_le_trans with (key a j); [|exact Hk].
      apply before_true; exact E.
    + constructor; [exact IH|].
      eapply Permutation_Forall; [symmetry; apply insert_index_perm|].
      constructor; [now apply before_false|exact Hj].
Qed.

Lemma insertion_argsort_sorted : StronglySorted (fun i j => dist_le (key a i) (key a j)) (insertion_argsort before a).
Proof.
  unfold insertion_argsort.
  induction (seq 0 (List.length a)) as [|i l IH]; simpl.
  - constructor.
  - now apply insert_index_sorted.
Qed.
End InsertionArgsort.

Lemma dist_leb_true x y : dist_leb x y = true -> dist_le x y.
Proof. apply Qle_bool_imp_le. Qed.

Lemma dist_leb_false x y : dist_leb x y = false -> dist_le y x.
Proof.
  unfold dist_leb, dist_le. intros H.
  apply Qlt_le_weak, Qnot_le_lt. intros Hle.
  apply Qle_bool_iff in Hle. congruence.
Qed.

Lemma length_exact_linspace01 (num : nat) : List.length (exact_linspace01 num) = num.
Proof.
  destruct num as [|[|m]]; simpl; try reflexivity.
  rewrite length_app, length_map, length_seq. simpl. lia.
Qed.

Lemma inject_Z_pos (n : nat) : ~ (inject_Z (Z.of_nat (S n)) == 0)%Q.
Proof.
  intros H. assert (0 < inject_Z (Z.of_nat (S n)))%Q; [|lra].
  change 0%Q with (inject_Z 0). rewrite <- Zlt_Qlt. lia.
Qed.

Lemma exact_linspace01_nth (num i : nat) :
  (i < num)%nat -> (nth i (exact_linspace01 num) 0 == uniform num i)%Q.
Proof.
  intros Hi. destruct num as [|[|m]]; [lia| |].
  - replace i with 0%nat by lia. reflexivity.
  - unfold uniform. simpl Nat.eqb. cbv iota.
    replace (S (S m) - 1)%nat with (S m) by lia.
    pose proof (@inject_Z_pos m) as Hnz.
    unfold exact_linspace01.
    set (f := fun i : nat =>
                (inject_Z (Z.of_nat i) * (1 / inject_Z (Z.of_nat (S m))) + 0)%Q).
    destruct (Nat.eq_dec i (S m)) as [->|Hne].
    + rewrite app_nth2 by (rewrite length_map, length_seq; lia).
      rewrite length_map, length_seq, Nat.sub_diag. simpl nth.
      field. exact Hnz.
    + rewrite app_nth1 by (rewrite length_map, length_seq; lia).
      rewrite (nth_indep _ 0%Q (f 0%nat))
        by (rewrite length_map, length_seq; lia).
      rewrite (map_nth f), seq_nth by lia. simpl Nat.add.
      unfold f. field. exact Hnz.
Qed.

Lemma uniform_range (num i : nat) :
  (i < num)%nat -> (0 <= uniform num i <= 1)%Q.
Proof.
  intros Hi. unfold uniform.
  destruct (num =? 1)%nat eqn:E; [split; lra|].
  apply Nat.eqb_neq in E.
  destruct num as [|[|m]]; try lia.
  replace (S (S m) - 1)%nat with (S m) by lia.
  assert (Hpos : (0 < inject_Z (Z.of_nat (S m)))%Q).
  { change 0%Q with (inject_Z 0). rewrite <- Zlt_Qlt. lia. }
  split.
  - apply Qle_shift_div_l; [assumption|]. rewrite Qmult_0_l.
    change 0%Q with (inject_Z 0). rewrite <- Zle_Qle. lia.
  - apply Qle_shift_div_r; [assumption|]. rewrite Qmult_1_l.
    rewrite <- Zle_Qle. lia.
Qed.

Lemma exact_linspace01_range (num : nat) (x : Q) :
  In x (exact_linspace01 num) -> (0 <= x <= 1)%Q.
Proof.
  intros H. apply (In_nth _ _ 0%Q) in H. destruct H as (i & Hi & <-).
  rewrite length_exact_linspace01 in Hi.
  rewrite (exact_linspace01_nth Hi). now apply uniform_range.
Qed.

(** Binary64 norms, insertion sort, and the samples of [np.linspace] in
    exact arithmetic. *)
#[export] Instance float64_externals : Externals := {|
  argsort := stable_argsort;
  argsort_perm := insertion_argsort_perm dist_leb;
  argsort_sorted :=
    insertion_argsort_sorted dist_leb dist_leb_true dist_leb_false;
  indices_in_bounds := box_indices;
  linalg_norm_axis := float64_norm;
  linalg_norm := float64_norm;
  linspace01 := exact_linspace01;
  linspace01_length := length_exact_linspace01;
  linspace01_range := exact_linspace01_range
|}.

(** Decides an order between two computed distances. *)
Ltac dist_compute :=
  unfold dist_le, dist_lt, dist_eq; vm_compute;
  first [reflexivity | discriminate | congruence].

(** ** Containment in a bounding box *)

Lemma Qltb_lt (a b : Q) : Qltb a b = true <-> (a < b)%Q.
Proof.
  unfold Qltb. rewrite negb_true_iff. split.
  - intros H. apply Qnot_le_lt. intros Hle.
    apply Qle_bool_iff in Hle. congruence.
  - intros H. destruct (Qle_bool b a) eqn:E; [|reflexivity].
    apply Qle_bool_iff in E. exfalso. revert E. now apply Qlt_not_le.
Qed.

Lemma in_bounds_iff (p : vec2) (b : bounds) :
  in_bounds p b = true <-> strictly_inside p b.
Proof.
  unfold in_bounds, strictly_inside, x_min, y_min, x_max, y_max.
  rewrite !andb_true_iff, !Qltb_lt. tauto.
Qed.

Lemma on_edge_not_inside (p : vec2) (b : bounds) :
  on_edge p b -> ~ strictly_inside p b.
Proof.
  unfold on_edge, strictly_inside. intros H (H1 & H2 & H3 & H4).
  destruct H as [H|[H|[H|H]]]; rewrite H in *;
    eapply Qlt_irrefl; eassumption.
Qed.

Section Containing.
Variable self : CustomMapAPI.
Variable p : vec2.

Lemma get_lanes_ids_at_acc (els : list MapElement) acc r :
  foldM
    (fun lanes_ids element =>
       if negb (is_lane element) then Ok lanes_ids
       else
         let lane_id := id_as_str (id element) in
         lane_bounds <- get_lane_bounds self lane_id ;;
         if negb (in_bounds p lane_bounds) then Ok lanes_ids
         else Ok (lanes_ids ++ [lane_id]))
    els acc = Ok r ->
  exists r', r = acc ++ r' /\
    forall l, In l r' <-> lane_element_in els l /\ contains self p l.
Proof.
  revert acc r. induction els as [|el els IH]; intros acc r; simpl.
  - intros [= <-]. exists []. rewrite app_nil_r. split; [reflexivity|].
    intros l. split; [contradiction|]. now intros [(el & [] & _) _].
  - destruct (is_lane el) eqn:Hl; simpl.
    + destruct (get_lane_bounds self (id_as_str (id el))) as [b| |] eqn:Ha;
        simpl; try discriminate.
      intros H.
      destruct (in_bounds p b) eqn:Hb; simpl in H;
        apply IH in H; destruct H as (r' & -> & Hr').
      * exists (id_as_str (id el) :: r'). rewrite <- app_assoc.
        split; [reflexivity|]. intros l. simpl. rewrite Hr'. split.
        -- intros [<-|[(el' & Hin & He) Hc]].
           ++ split; [exists el; simpl; auto|].
              exists b. split; [assumption|]. now apply in_bounds_iff.
           ++ split; [exists el'; simpl; auto|assumption].
        -- intros [(el' & [<-|Hin] & He1 & He2) Hc]; [now left|].
           right. split; [exists el'; simpl; auto|assumption].
      * exists r'. split; [reflexivity|]. intros l. rewrite Hr'. split.
        -- intros [(el' & Hin & He) Hc]. split; [exists el'; simpl; auto|auto].
        -- intros [(el' & [<-|Hin] & He1 & He2) Hc].
           ++ exfalso. destruct Hc as (b' & Hb' & Hs). subst l.
              rewrite Ha in Hb'. injection Hb' as <-.
              apply in_bounds_iff in Hs. congruence.
           ++ split; [exists el'; simpl; auto|assumption].
    + intros H. apply IH in H. destruct H as (r' & -> & Hr').
      exists r'. split; [reflexivity|]. intros l. rewrite Hr'. split.
      * intros [(el' & Hin & He) Hc]. split; [exists el'; simpl; auto|auto].
      * intros [(el' & [<-|Hin] & He1 & He2) Hc]; [congruence|].
        split; [exists el'; simpl; auto|assumption].
Qed.

Lemma get_lanes_ids_at_In lanes_ids :
  get_lanes_ids_at self p = Ok lanes_ids ->
  forall l, In l lanes_ids <-> lane_element_in (elements self) l /\ contains self p l.
Proof.
  unfold get_lanes_ids_at. intros H.
  apply get_lanes_ids_at_acc in H. destruct H as (r' & -> & H). exact H.
Qed.
End Containing.

(** C5. The containment test is strict on all four bounds: [in_bounds] holds
    exactly when [x_min < x < x_max] and [y_min < y < y_max]; the lanes
    [get_lanes_ids_at] returns are exactly the lane elements whose bounds
    strictly contain the position; and a lane with the position on one of the
    four edges of its bounds is never returned. *)
Theorem lanes_at_strict_containment (self : CustomMapAPI) (position : vec2) :
  (forall b, in_bounds position b = true <-> strictly_inside position b) /\
  (forall lanes_ids,
      get_lanes_ids_at self position = Ok lanes_ids ->
      forall lane_id,
        In lane_id lanes_ids <->
        lane_element_in (elements self) lane_id /\
        exists b, get_lane_bounds self lane_id = Ok b /\
                  strictly_inside position b) /\
  (forall lanes_ids lane_id b,
      get_lanes_ids_at self position = Ok lanes_ids ->
      get_lane_bounds self lane_id = Ok b ->
      on_edge position b ->
      in_bounds position b = false /\ ~ In lane_id lanes_ids).
Proof.
  split; [|split].
  - intros b. apply in_bounds_iff.
  - intros lanes_ids H lane_id. now apply get_lanes_ids_at_In.
  - intros lanes_ids lane_id b H Hb He. split.
    + destruct (in_bounds position b) eqn:E; [|reflexivity].
      apply in_bounds_iff in E. now apply on_edge_not_inside in He.
    + intros Hin. eapply get_lanes_ids_at_In in Hin; [|exact H].
      destruct Hin as [_ (b' & Hb' & Hs)].
      rewrite Hb in Hb'. injection Hb' as <-.
      now apply on_edge_not_inside in He.
Qed.

(** On the test map the point (10,5) lies on the shared edge of [A] and [B]:
    no lane contains it, and [A] is the only lane that contains (9,5). *)
Lemma lanes_at_strict_containment_witness :
  get_lanes_ids_at TestMap.chain (10, 5)%Q = Ok [] /\
  (in_bounds (10, 5)%Q ((0, 0), (10, 10))%Q = false /\ ~ In "A" []) /\
  (In "A" ["A"] <->
   lane_element_in (elements TestMap.chain) "A" /\
   exists b, get_lane_bounds TestMap.chain "A" = Ok b /\
             strictly_inside (9, 5)%Q b).
Proof.
  split; [reflexivity|]. split.
  - apply (proj2 (proj2 (lanes_at_strict_containment TestMap.chain (10, 5)%Q))
             [] "A" ((0, 0), (10, 10))%Q); [reflexivity|reflexivity|].
    right; left. reflexivity.
  - apply (proj1 (proj2 (lanes_at_strict_containment TestMap.chain (9, 5)%Q))
             ["A"]). reflexivity.
Defined.

(** ** The two ends of a two-sample trajectory *)

Lemma bind_same {A B : Type} (c : result A) (k : A -> A -> result B) :
  (x <- c ;; y <- c ;; k x y) = (x <- c ;; k x x).
Proof. destruct c as [a| |] eqn:E; simpl; [|reflexivity..]. reflexivity. Qed.

(** C9. On a trajectory of exactly two samples, index [-2] is index [0]: the
    final position is the initial position, the final lanes are computed
    from the same position as the initial lanes and are the same sequence,
    and [get_route] runs with that one sequence in both roles. *)
Theorem get_route_two_samples (self : CustomMapAPI) (fuel : nat)
  (trajectory : list vec2) :
  List.length trajectory = 2%nat ->
  getitem trajectory (-2) = getitem trajectory 0 /\
  (exists p0, getitem trajectory 0 = Ok p0 /\ nth_error trajectory 0 = Some p0) /\
  final_lanes_ids_of self trajectory = initial_lanes_ids_of self trajectory /\
  get_route self fuel trajectory =
    (lanes_ids <- initial_lanes_ids_of self trajectory ;;
     '(visited_lanes_ids, _) <-
       frontier_loop self (tl trajectory) (seed lanes_ids) ;;
     find_route fuel visited_lanes_ids lanes_ids lanes_ids).
Proof.
  intros Hlen.
  destruct trajectory as [|p0 [|p1 [|p2 t]]]; try discriminate.
  assert (H2 : getitem [p0; p1] (-2) = Ok p0) by reflexivity.
  assert (H0 : getitem [p0; p1] 0 = Ok p0) by reflexivity.
  split; [congruence|]. split; [now exists p0|].
  unfold final_lanes_ids_of, initial_lanes_ids_of, get_route.
  rewrite H2, H0. simpl bind at 1. split; [reflexivity|].
  simpl.
  apply (bind_same (get_lanes_ids_at self p0)
           (fun initial_lanes_ids final_lanes_ids =>
              '(visited_lanes_ids, _) <-
                frontier_loop self [p1] (seed initial_lanes_ids) ;;
              find_route fuel visited_lanes_ids initial_lanes_ids
                final_lanes_ids)).
Qed.

Lemma get_route_two_samples_witness :
  List.length [(5, 5); (15, 5)]%Q = 2%nat /\
  final_lanes_ids_of TestMap.chain [(5, 5); (15, 5)]%Q = Ok ["A"] /\
  final_lanes_ids_of TestMap.chain [(5, 5); (15, 5)]%Q
  = initial_lanes_ids_of TestMap.chain [(5, 5); (15, 5)]%Q.
Proof.
  split; [reflexivity|]. split; [reflexivity|].
  apply (get_route_two_samples TestMap.chain 0 [(5, 5); (15, 5)]%Q).
  reflexivity.
Defined.

(** ** Sorting by [argsort] *)

Lemma dist_le_refl (x : dist) : dist_le x x.
Proof. apply Qle_refl. Qed.

Lemma map_nth_seq {A : Type} (l : list A) (d : A) :
  map (fun i => nth i l d) (seq 0 (List.length l)) = l.
Proof.
  induction l as [|x l IH]; simpl; [reflexivity|].
  f_equal. rewrite <- seq_shift, map_map. exact IH.
Qed.

Lemma Forall2_nth {A B : Type} (R : A -> B -> Prop) l1 l2 d1 d2 k :
  Forall2 R l1 l2 -> (k < List.length l1)%nat -> R (nth k l1 d1) (nth k l2 d2).
Proof.
  intros H. revert k. induction H as [|x y l1 l2 Hxy H IH]; intros k Hk.
  - simpl in Hk. lia.
  - destruct k as [|k]; simpl; [assumption|]. apply IH. simpl in Hk. lia.
Qed.

Lemma Forall2_length_eq {A B : Type} (R : A -> B -> Prop) l1 l2 :
  Forall2 R l1 l2 -> List.length l1 = List.length l2.
Proof. induction 1; simpl; congruence. Qed.

Lemma StronglySorted_map {A B : Type} (R : B -> B -> Prop) (f : A -> B) l :
  StronglySorted (fun x y => R (f x) (f y)) l -> StronglySorted R (map f l).
Proof.
  induction 1 as [|x l Hs IH Hx]; simpl; constructor; [assumption|].
  apply Forall_map. exact Hx.
Qed.

Section Argsort.
Context {ext : Externals}.
Variable a : list dist.

Lemma argsort_in_range :
  Forall (fun i => (i < List.length a)%nat) (argsort a).
Proof.
  apply Forall_forall. intros i Hi.
  eapply Permutation_in in Hi; [|apply argsort_perm].
  apply in_seq in Hi. lia.
Qed.

Lemma argsort_length : List.length (argsort a) = List.length a.
Proof.
  rewrite (Permutation_length (argsort_perm a)). apply length_seq.
Qed.

(** The first index [argsort] returns is the index of a least entry. *)
Lemma argsort_head_least i rest :
  argsort a = i :: rest ->
  (i < List.length a)%nat /\
  forall j, (j < List.length a)%nat ->
            dist_le (nth i a (Sqrt 0)) (nth j a (Sqrt 0)).
Proof.
  intros E. split.
  - pose proof argsort_in_range as H. rewrite E in H. now inversion H.
  - intros j Hj.
    assert (Hin : In j (argsort a)).
    { eapply Permutation_in; [symmetry; apply argsort_perm|].
      apply in_seq. lia. }
    pose proof (argsort_sorted a) as Hs. rewrite E in Hs, Hin.
    inversion Hs as [|? ? _ Hall]; subst.
    destruct Hin as [<-|Hin]; [apply dist_le_refl|].
    rewrite Forall_forall in Hall. now apply Hall.
Qed.

(** Reordering a sequence as long as [a] by [argsort a] permutes it. *)
Lemma argsort_reorders {B : Type} (l : list B) (d : B) :
  List.length l = List.length a ->
  Permutation (map (fun i => nth i l d) (argsort a)) l.
Proof.
  intros Hlen.
  apply Permutation_trans
    with (map (fun i => nth i l d) (seq 0 (List.length l))).
  - apply Permutation_map. rewrite Hlen. apply argsort_perm.
  - now rewrite map_nth_seq.
Qed.

Lemma argsort_sorts :
  StronglySorted dist_le (map (fun i => nth i a (Sqrt 0)) (argsort a)).
Proof. apply StronglySorted_map, argsort_sorted. Qed.
End Argsort.

(** ** Nearest lanes *)

Section Nearest.
Context {ext : Externals}.
Variable self : CustomMapAPI.
Variable p : vec2.

Lemma nth_distances midpoints j d0 :
  (j < List.length midpoints)%nat ->
  nth j (distances p midpoints) (Sqrt 0)
  = linalg_norm_axis (nth j midpoints d0) p.
Proof.
  intros Hj. unfold distances.
  rewrite (nth_indep _ (Sqrt 0) (linalg_norm_axis d0 p))
    by now rewrite length_map.
  apply (map_nth (fun m => linalg_norm_axis m p)).
Qed.

Lemma get_closest_lane_midpoints_Ok lane_id lane :
  xyz_midlane self lane_id 1 INTER_METER = Ok lane ->
  get_closest_lane_midpoints self p lane_id =
  Ok (map (fun i => nth i (cols2 lane) (0, 0)%Q)
        (argsort (distances p (cols2 lane)))).
Proof.
  intros E. unfold get_closest_lane_midpoints. rewrite E. simpl.
  apply take_indices_in_range.
  pose proof (argsort_in_range (distances p (cols2 lane))) as H.
  unfold distances in *. now rewrite length_map in H.
Qed.

(** The first of the closest midpoints is a nearest midpoint. *)
Lemma closest_midpoint_nearest lane_id closest_midpoints closest_midpoint :
  get_closest_lane_midpoints self p lane_id = Ok closest_midpoints ->
  getitem closest_midpoints 0 = Ok closest_midpoint ->
  nearest_midpoint_distance self p lane_id (linalg_norm closest_midpoint p).
Proof.
  intros Hc H0.
  destruct (xyz_midlane self lane_id 1 INTER_METER) as [lane| |] eqn:E;
    try (unfold get_closest_lane_midpoints in Hc; rewrite E in Hc;
         discriminate).
  rewrite (get_closest_lane_midpoints_Ok _ E) in Hc. injection Hc as <-.
  set (mids := cols2 lane) in *.
  destruct (argsort (distances p mids)) as [|i rest] eqn:Ea;
    [discriminate|].
  simpl in H0. change (getitem ?l 0) with (getitem l (Z.of_nat 0)) in H0.
  rewrite getitem_nat in H0. simpl in H0. injection H0 as <-.
  destruct (argsort_head_least _ Ea) as [Hi Hleast].
  unfold distances in Hi. rewrite length_map in Hi.
  exists lane, (nth i mids (0, 0)%Q). split; [exact E|]. fold mids.
  split; [now apply nth_In|]. split; [|reflexivity].
  intros m Hm. apply (In_nth _ _ (0, 0)%Q) in Hm.
  destruct Hm as (j & Hj & <-).
  rewrite <- !nth_distances by assumption.
  apply Hleast. unfold distances. now rewrite length_map.
Qed.

Lemma distance_loop_Ok lanes_indices acc ds :
  foldM (distance_body self p) lanes_indices acc = Ok ds ->
  exists ds', ds = acc ++ ds' /\
              Forall2 (candidate_distance self p) lanes_indices ds'.
Proof.
  revert acc ds. induction lanes_indices as [|idx l IH]; intros acc ds; simpl.
  - intros [= <-]. exists []. now rewrite app_nil_r.
  - intros H. apply bind_Ok in H. destruct H as (acc' & Hb & H).
    apply IH in H. destruct H as (ds' & -> & Hds').
    unfold distance_body in Hb. rewrite getitem_nat in Hb.
    destruct (nth_error _ idx) as [lane_id|] eqn:En; [|discriminate].
    simpl in Hb. apply bind_Ok in Hb. destruct Hb as (cm & Hcm & Hb).
    apply bind_Ok in Hb. destruct Hb as (c & Hc & [= <-]).
    exists (linalg_norm c p :: ds'). rewrite <- app_assoc.
    split; [reflexivity|]. constructor; [|assumption].
    exists lane_id. split; [assumption|].
    eapply closest_midpoint_nearest; eassumption.
Qed.

Lemma distance_loop_total lanes_indices acc :
  Forall (rankable self) lanes_indices ->
  exists ds, foldM (distance_body self p) lanes_indices acc = Ok ds.
Proof.
  intros H. revert acc.
  induction H as [|idx l (lane_id & lane & En & El & Hne) H IH]; intros acc.
  - now exists acc.
  - simpl. unfold distance_body at 1. rewrite getitem_nat, En. simpl.
    rewrite (get_closest_lane_midpoints_Ok _ El). simpl.
    destruct (argsort (distances p (cols2 lane))) as [|i rest] eqn:Ea.
    + exfalso. apply (f_equal (@List.length nat)) in Ea.
      rewrite argsort_length in Ea. unfold distances, cols2 in Ea.
      rewrite !length_map in Ea. destruct lane; [congruence|discriminate].
    + simpl. apply IH.
Qed.
End Nearest.

Section Ranking.
Context {ext : Externals}.
Variable self : CustomMapAPI.
Variable p : vec2.

Lemma get_closest_lanes_ids_unfold :
  get_closest_lanes_ids self p =
  if (List.length (coarse_candidates self p) =? 0)%nat then Ok None
  else
    lanes_distances <-
      foldM (distance_body self p) (coarse_candidates self p) [] ;;
    lanes_indices <-
      take_indices (coarse_candidates self p) (argsort lanes_distances) ;;
    closest_lanes_ids <-
      take_indices (bounds_info_lanes_ids self) lanes_indices ;;
    Ok (Some closest_lanes_ids).
Proof. reflexivity. Qed.

Lemma get_closest_lanes_ids_None :
  get_closest_lanes_ids self p = Ok None <-> coarse_candidates self p = [].
Proof.
  rewrite get_closest_lanes_ids_unfold.
  destruct (coarse_candidates self p) as [|i l]; simpl.
  - tauto.
  - split; [|discriminate]. intros H. inv_bind. discriminate.
Qed.

Lemma get_closest_lanes_ids_Some r :
  get_closest_lanes_ids self p = Ok (Some r) ->
  coarse_candidates self p <> [] /\
  exists ds,
    foldM (distance_body self p) (coarse_candidates self p) [] = Ok ds /\
    Forall2 (candidate_distance self p) (coarse_candidates self p) ds /\
    r = ranked self p ds.
Proof.
  rewrite get_closest_lanes_ids_unfold.
  destruct (coarse_candidates self p) as [|i l] eqn:Ec; simpl Nat.eqb;
    cbv iota; [discriminate|].
  intros H. split; [discriminate|].
  apply bind_Ok in H. destruct H as (ds & Hds & H).
  apply bind_Ok in H. destruct H as (idx & Hidx & H).
  apply bind_Ok in H. destruct H as (ids & Hids & [= <-]).
  exists ds. split; [assumption|].
  apply distance_loop_Ok in Hds. destruct Hds as (ds' & -> & Hds).
  simpl in *. split; [assumption|].
  apply (take_indices_map _ _ 0%nat) in Hidx. subst idx.
  apply (take_indices_map _ _ "") in Hids. subst ids.
  unfold ranked. rewrite Ec. now rewrite map_map.
Qed.

Lemma candidate_ids_Ok ds :
  Forall2 (candidate_distance self p) (coarse_candidates self p) ds ->
  candidate_ids self p =
  Ok (map (fun i => nth i (bounds_info_lanes_ids self) "")
        (coarse_candidates self p)).
Proof.
  intros H. apply take_indices_in_range.
  induction H as [|i d l ds' (lane_id & Hi & _) H IH]; constructor; auto.
  apply nth_error_Some. congruence.
Qed.

Lemma ranked_perm ds :
  Forall2 (candidate_distance self p) (coarse_candidates self p) ds ->
  Permutation (ranked self p ds)
    (map (fun i => nth i (bounds_info_lanes_ids self) "")
       (coarse_candidates self p)).
Proof.
  intros H. unfold ranked.
  rewrite <- (map_map (fun k => nth k (coarse_candidates self p) 0%nat)
                (fun i => nth i (bounds_info_lanes_ids self) "")).
  apply Permutation_map, argsort_reorders.
  now apply Forall2_length_eq in H.
Qed.

Lemma ranked_sorted ds :
  Forall2 (candidate_distance self p) (coarse_candidates self p) ds ->
  Forall2 (nearest_midpoint_distance self p) (ranked self p ds)
    (map (fun k => nth k ds (Sqrt 0)) (argsort ds)).
Proof.
  intros H. unfold ranked.
  pose proof (argsort_in_range ds) as Hr.
  induction Hr as [|k l Hk Hr IH]; simpl; constructor; [|exact IH].
  rewrite <- (Forall2_length_eq H) in Hk.
  destruct (Forall2_nth 0%nat (Sqrt 0) H Hk) as (lane_id & Hn & Hd).
  now rewrite (nth_error_nth _ _ _ Hn).
Qed.
End Ranking.




(** C6. [get_closest_lanes_ids] returns [None] exactly when there is no
    coarse candidate. With candidates, a returned sequence has one id per
    candidate and is not empty; and a sequence is returned when each
    candidate's lane is listed and has a midpoint. *)
Theorem closest_lanes_none_iff_no_candidate {ext : Externals}
  (self : CustomMapAPI) (position : vec2) :
  (get_closest_lanes_ids self position = Ok None <->
   coarse_candidates self position = []) /\
  (coarse_candidates self position <> [] ->
   (forall res, get_closest_lanes_ids self position = Ok res ->
      exists r, res = Some r /\ r <> [] /\
        List.length r = List.length (coarse_candidates self position)) /\
   (Forall (rankable self) (coarse_candidates self position) ->
    exists r, get_closest_lanes_ids self position = Ok (Some r) /\ r <> [])).
Proof.
  split; [apply get_closest_lanes_ids_None|].
  intros Hne.
  assert (Hsome : forall r,
             get_closest_lanes_ids self position = Ok (Some r) ->
             r <> [] /\
             List.length r = List.length (coarse_candidates self position)).
  { intros r H. apply get_closest_lanes_ids_Some in H.
    destruct H as (_ & ds & _ & Hds & ->).
    assert (Hlen : List.length (ranked self position ds)
                   = List.length (coarse_candidates self position)).
    { unfold ranked. rewrite length_map, argsort_length.
      symmetry. eapply Forall2_length_eq; eassumption. }
    split; [|assumption].
    intros E. rewrite E in Hlen.
    destruct (coarse_candidates self position); [congruence|discriminate]. }
  split.
  - intros [r|] H.
    + exists r. split; [reflexivity|]. now apply Hsome.
    + now apply get_closest_lanes_ids_None in H.
  - intros Hall.
    destruct (@distance_loop_total _ self position _ [] Hall) as (ds & Hds).
    pose proof Hds as Hds'. apply distance_loop_Ok in Hds'.
    destruct Hds' as (ds' & -> & HF). simpl in *.
    assert (Hlen := Forall2_length_eq HF).
    exists (ranked self position ds').
    assert (E : get_closest_lanes_ids self position
                = Ok (Some (ranked self position ds'))).
    { rewrite get_closest_lanes_ids_unfold.
      destruct (coarse_candidates self position) as [|i l] eqn:Ec;
        [congruence|]. simpl Nat.eqb. cbv iota.
      rewrite <- Ec in *. rewrite Hds. simpl.
      rewrite (take_indices_in_range _ 0%nat).
      2:{ rewrite Hlen. apply argsort_in_range. }
      simpl. rewrite (take_indices_in_range _ "").
      2:{ apply Forall_map, Forall_forall. intros k Hk.
          pose proof (argsort_in_range ds') as Hr.
          rewrite Forall_forall in Hr. apply Hr in Hk.
          rewrite <- Hlen in Hk.
          destruct (Forall2_nth 0%nat (Sqrt 0) HF Hk) as (lane_id & Hn & _).
          apply nth_error_Some. congruence. }
      simpl. unfold ranked. now rewrite map_map. }
    split; [exact E|]. now apply Hsome.
Qed.

Lemma closest_lanes_none_iff_no_candidate_witness :
  coarse_candidates TestMap.chain (13, 5)%Q <> [] /\
  Forall (rankable TestMap.chain) (coarse_candidates TestMap.chain (13, 5)%Q) /\
  exists r, get_closest_lanes_ids TestMap.chain (13, 5)%Q = Ok (Some r)
            /\ r <> [].
Proof.
  assert (Hne : coarse_candidates TestMap.chain (13, 5)%Q <> [])
    by discriminate.
  assert (Hall : Forall (rankable TestMap.chain)
                   (coarse_candidates TestMap.chain (13, 5)%Q)).
  { repeat constructor.
    - exists "A", (TestMap.midlane_of 0). repeat split. discriminate.
    - exists "B", (TestMap.midlane_of 10). repeat split. discriminate. }
  split; [exact Hne|]. split; [exact Hall|].
  exact (proj2 (proj2 (closest_lanes_none_iff_no_candidate
                         TestMap.chain (13, 5)%Q) Hne) Hall).
Defined.

(** C8. With coarse candidates, what [get_closest_lanes_ids] returns is a
    permutation of the candidate lanes: every candidate is returned, however
    far its nearest midpoint is. *)
Theorem closest_lanes_permute_candidates {ext : Externals}
  (self : CustomMapAPI) (position : vec2) :
  coarse_candidates self position <> [] ->
  forall res,
    get_closest_lanes_ids self position = Ok res ->
    exists r cands,
      res = Some r /\
      candidate_ids self position = Ok cands /\
      Permutation r cands /\
      forall lane_id, In lane_id cands -> In lane_id r.
Proof.
  intros Hne [r|] H; [|now apply get_closest_lanes_ids_None in H].
  apply get_closest_lanes_ids_Some in H.
  destruct H as (_ & ds & _ & Hds & ->).
  exists (ranked self position ds). eexists.
  split; [reflexivity|]. split; [now apply (candidate_ids_Ok Hds)|].
  split; [now apply ranked_perm|].
  intros lane_id Hin. eapply Permutation_in; [|exact Hin].
  symmetry. now apply ranked_perm.
Qed.

(** On the test map the retrieval distance is 4. At (5, 1/2) lane [A] is the
    only candidate and is returned, although its nearest midpoint, (5,5), is
    at distance 9/2. *)
Lemma closest_lanes_permute_candidates_witness :
  coarse_candidates TestMap.chain (5, 1 # 2)%Q <> [] /\
  get_closest_lanes_ids TestMap.chain (5, 1 # 2)%Q = Ok (Some ["A"]) /\
  (nearest_midpoint_distance TestMap.chain (5, 1 # 2)%Q "A"
     (linalg_norm (5, 5)%Q (5, 1 # 2)%Q) /\
   (max_retrieval_distance_m TestMap.chain
    * max_retrieval_distance_m TestMap.chain
    < radicand (linalg_norm (5, 5)%Q (5, 1 # 2)%Q))%Q) /\
  exists r cands,
    Some ["A"] = Some r /\
    candidate_ids TestMap.chain (5, 1 # 2)%Q = Ok cands /\
    Permutation r cands /\
    forall lane_id, In lane_id cands -> In lane_id r.
Proof.
  split; [discriminate|]. split; [reflexivity|]. split.
  - split; [|vm_compute; reflexivity].
    exists (TestMap.midlane_of 0), (0 + 5, 5)%Q.
    split; [reflexivity|]. split; [simpl; auto|]. split; [|reflexivity].
    intros m [<-|[<-|[<-|[]]]]; dist_compute.
  - apply (closest_lanes_permute_candidates TestMap.chain (5, 1 # 2)%Q);
      [discriminate|reflexivity].
Defined.

(** ** Progress along a lane *)

(** C7, as the code has it. For a lane with at least one resampled midpoint,
    [get_lane_progress] returns the entry of [np.linspace(0, 1, n)], [n] the
    number of midpoints, at the index [i] of a midpoint whose distance to the
    position, as the code computes it in float64, is least among the
    midpoints of the lane. The value lies in [0, 1], wherever the position
    is. *)
Theorem lane_progress_of_nearest_midpoint {ext : Externals}
  (self : CustomMapAPI) (position : vec2) (lane_id : string)
  (lane : list xyz) :
  xyz_midlane self lane_id (inject_Z (max_points_per_lane self))
    INTER_ENSURE_LEN = Ok lane ->
  lane <> [] ->
  exists i progress,
    get_lane_progress self position lane_id = Ok progress /\
    (i < List.length (cols2 lane))%nat /\
    nth_error (linspace01 (List.length (cols2 lane))) i = Some progress /\
    (forall m, In m (cols2 lane) ->
       dist_le (linalg_norm_axis (nth i (cols2 lane) (0, 0)%Q) position)
         (linalg_norm_axis m position)) /\
    (0 <= progress <= 1)%Q.
Proof.
  intros E Hne. set (mids := cols2 lane).
  set (ds := distances position mids).
  assert (Hlen : List.length ds = List.length mids)
    by (unfold ds, distances; now rewrite length_map).
  destruct (argsort ds) as [|i rest] eqn:Ea.
  { exfalso. apply (f_equal (@List.length nat)) in Ea.
    rewrite argsort_length, Hlen in Ea. unfold mids, cols2 in Ea.
    rewrite length_map in Ea. destruct lane; [congruence|discriminate]. }
  destruct (argsort_head_least _ Ea) as [Hi Hleast]. rewrite Hlen in Hi.
  exists i, (nth i (linspace01 (List.length mids)) 0%Q).
  assert (Hn : nth_error (linspace01 (List.length mids)) i
               = Some (nth i (linspace01 (List.length mids)) 0%Q))
    by (apply nth_error_nth'; now rewrite linspace01_length).
  split; [|split; [assumption|split; [assumption|split]]].
  - unfold get_lane_progress. rewrite E. simpl. fold mids.
    change (map _ mids) with ds.
    rewrite (take_indices_in_range _ 0%Q).
    2:{ pose proof (argsort_in_range ds) as Hr. rewrite Hlen in Hr.
        now rewrite linspace01_length. }
    rewrite Ea. reflexivity.
  - intros m Hm. apply (In_nth _ _ (0, 0)%Q) in Hm.
    destruct Hm as (j & Hj & <-).
    rewrite <- !nth_distances by assumption.
    apply Hleast. now rewrite Hlen.
  - apply nth_error_In in Hn. now apply linspace01_range in Hn.
Qed.

(** On the test map the midlane of [A] has the three points (0,5), (5,5) and
    (10,5): far past the end of the lane, at (100,5), the progress is 1. *)
Lemma lane_progress_of_nearest_midpoint_witness :
  get_lane_progress TestMap.chain (100, 5)%Q "A" = Ok 1%Q /\
  exists i progress,
    get_lane_progress TestMap.chain (100, 5)%Q "A" = Ok progress /\
    (i < List.length (cols2 (TestMap.midlane_of 0)))%nat /\
    nth_error (linspace01 (List.length (cols2 (TestMap.midlane_of 0)))) i
    = Some progress /\
    (forall m, In m (cols2 (TestMap.midlane_of 0)) ->
       dist_le
         (linalg_norm_axis (nth i (cols2 (TestMap.midlane_of 0)) (0, 0)%Q)
            (100, 5)%Q)
         (linalg_norm_axis m (100, 5)%Q)) /\
    (0 <= progress <= 1)%Q.
Proof.
  split; [reflexivity|].
  apply (lane_progress_of_nearest_midpoint TestMap.chain (100, 5)%Q "A"
           (lane := TestMap.midlane_of 0)); [reflexivity|discriminate].
Defined.

(** C7, as stated, fails. Lane [T] has the midpoints (1024, 2^-20) and
    (1024, 0): from the origin the second is strictly nearer and its
    progress is 1, the float64 distance of both is 1024, and the code
    returns 0, the progress of the first. *)
Lemma lane_progress_not_of_euclidean_nearest :
  get_lane_progress Rounding.ties (0, 0)%Q "T" = Ok 0%Q /\
  ~ progress_of_euclidean_nearest Rounding.ties (0, 0)%Q "T" 0%Q.
Proof.
  split; [reflexivity|].
  intros (lane & i & value & E & Hn & Hv & Hle).
  vm_compute in E. injection E as <-.
  destruct i as [|[|i]].
  - specialize (Hle (1024, 0)%Q (or_intror (or_introl eq_refl))).
    vm_compute in Hle. now apply Hle.
  - vm_compute in Hn. injection Hn as <-. discriminate Hv.
  - destruct i; discriminate Hn.
Qed.

(** ** Dictionaries *)

Section DictFacts.
Context {V : Type}.
Implicit Types (d : Dict.t V) (k : string) (v : V).

Lemma dict_mem_get d k : Dict.mem d k = true <-> Dict.get d k <> None.
Proof. unfold Dict.mem. destruct (Dict.get d k); split; congruence. Qed.

Lemma dict_mem_false d k : Dict.mem d k = false <-> Dict.get d k = None.
Proof. unfold Dict.mem. destruct (Dict.get d k); split; congruence. Qed.

Lemma dict_mem_keys d k : Dict.mem d k = true <-> In k (Dict.keys d).
Proof.
  unfold Dict.mem. induction d as [|[k' v'] d IH]; simpl.
  - split; [discriminate|contradiction].
  - destruct (String.eqb_spec k k') as [->|Hne].
    + split; auto.
    + rewrite IH. split; [auto|]. intros [E|H]; [congruence|assumption].
Qed.

Lemma dict_get_set d k v k' :
  Dict.get (Dict.set d k v) k' =
  if String.eqb k' k then Some v else Dict.get d k'.
Proof.
  induction d as [|[k0 v0] d IH]; simpl.
  - reflexivity.
  - destruct (String.eqb_spec k k0) as [->|Hne]; simpl.
    + destruct (String.eqb_spec k' k0); reflexivity.
    + rewrite IH. destruct (String.eqb_spec k' k0) as [->|Hne'].
      * destruct (String.eqb_spec k0 k); [congruence|reflexivity].
      * reflexivity.
Qed.

Lemma dict_mem_set d k v k' :
  Dict.mem (Dict.set d k v) k' = String.eqb k' k || Dict.mem d k'.
Proof.
  unfold Dict.mem. rewrite dict_get_set. now destruct (String.eqb k' k).
Qed.

Lemma dict_get_remove_neq d k k' :
  k' <> k -> Dict.get (Dict.remove d k) k' = Dict.get d k'.
Proof.
  intros Hne. induction d as [|[k0 v0] d IH]; simpl; [reflexivity|].
  destruct (String.eqb_spec k k0) as [->|Hk]; simpl.
  - destruct (String.eqb_spec k' k0); [congruence|reflexivity].
  - now rewrite IH.
Qed.

Lemma dict_get_remove_eq d k :
  NoDup (Dict.keys d) -> Dict.get (Dict.remove d k) k = None.
Proof.
  induction d as [|[k0 v0] d IH]; simpl; intros Hnd; [reflexivity|].
  inversion Hnd as [|? ? Hnotin Hnd']; subst.
  destruct (String.eqb_spec k k0) as [->|Hk]; simpl.
  - destruct (Dict.get d k0) eqn:E; [|reflexivity].
    exfalso. apply Hnotin, dict_mem_keys, dict_mem_get. congruence.
  - destruct (String.eqb_spec k k0); [congruence|]. now apply IH.
Qed.

Lemma dict_keys_set_in d k v :
  In k (Dict.keys d) -> Dict.keys (Dict.set d k v) = Dict.keys d.
Proof.
  induction d as [|[k0 v0] d IH]; simpl; [contradiction|].
  intros H. destruct (String.eqb_spec k k0) as [->|Hk]; simpl.
  - reflexivity.
  - f_equal. apply IH. destruct H; [congruence|assumption].
Qed.

Lemma dict_keys_set_new d k v :
  ~ In k (Dict.keys d) -> Dict.keys (Dict.set d k v) = Dict.keys d ++ [k].
Proof.
  induction d as [|[k0 v0] d IH]; simpl; [reflexivity|].
  intros H. destruct (String.eqb_spec k k0) as [->|Hk]; simpl.
  - exfalso. auto.
  - f_equal. apply IH. auto.
Qed.

Lemma dict_nodup_set d k v :
  NoDup (Dict.keys d) -> NoDup (Dict.keys (Dict.set d k v)).
Proof.
  intros Hnd. destruct (in_dec string_dec k (Dict.keys d)) as [Hin|Hnin].
  - now rewrite dict_keys_set_in.
  - rewrite dict_keys_set_new by assumption.
    apply NoDup_app; [assumption|repeat constructor; auto|].
    intros x Hx [<-|[]]. contradiction.
Qed.

Lemma dict_keys_remove_incl d k x :
  In x (Dict.keys (Dict.remove d k)) -> In x (Dict.keys d).
Proof.
  induction d as [|[k0 v0] d IH]; simpl; [auto|].
  destruct (String.eqb k k0); simpl; [auto|]. intros [H|H]; auto.
Qed.

Lemma dict_nodup_remove d k :
  NoDup (Dict.keys d) -> NoDup (Dict.keys (Dict.remove d k)).
Proof.
  induction d as [|[k0 v0] d IH]; simpl; intros Hnd; [constructor|].
  inversion Hnd as [|? ? Hnotin Hnd']; subst.
  destruct (String.eqb k k0); simpl; [assumption|].
  constructor; [|now apply IH].
  intros H. now apply dict_keys_remove_incl in H.
Qed.

Lemma dict_length_set_new d k v :
  Dict.get d k = None ->
  List.length (Dict.set d k v) = S (List.length d).
Proof.
  intros H. apply dict_mem_false in H.
  assert (Hn : ~ In k (Dict.keys d)).
  { intros Hin. apply dict_mem_keys in Hin. congruence. }
  apply (dict_keys_set_new _ _ v) in Hn.
  apply (f_equal (@List.length string)) in Hn.
  unfold Dict.keys in Hn. rewrite length_app, !length_map in Hn.
  simpl in Hn. lia.
Qed.
End DictFacts.

(** ** Only the backtrack can run out of fuel *)

Lemma bind_fuel {A B : Type} (c : result A) (k : A -> result B) :
  c <> OutOfFuel -> (forall a, k a <> OutOfFuel) -> bind c k <> OutOfFuel.
Proof. destruct c; simpl; auto; discriminate. Qed.

Lemma bind_raises_r {A B : Type} (c : result A) (k : A -> result B) :
  c <> OutOfFuel -> (forall a, raises (k a)) -> raises (bind c k).
Proof.
  destruct c as [a|e|]; simpl; intros Hc Hk; [apply Hk|now exists e|].
  congruence.
Qed.

(** A loop raises when its body raises on one of the elements, whatever the
    state it is reached in. *)
Lemma foldM_raises {A S : Type} (body : S -> A -> result S) (l : list A)
  (x : A) :
  (forall s y, body s y <> OutOfFuel) ->
  In x l -> (forall s, raises (body s x)) ->
  forall s, raises (foldM body l s).
Proof.
  intros Hf Hin Hx. induction l as [|y l IH]; intros s; [contradiction|].
  simpl. destruct Hin as [->|Hin].
  - now apply bind_raises_l.
  - apply bind_raises_r; [apply Hf|]. intros s'. now apply IH.
Qed.

Section NoFuel.
Context {ext : Externals}.
Variable self : CustomMapAPI.

Lemma dict_getitem_fuel {V : Type} (d : Dict.t V) k :
  Dict.getitem d k <> OutOfFuel.
Proof. unfold Dict.getitem. destruct (Dict.get d k); discriminate. Qed.

Lemma dict_delitem_fuel {V : Type} (d : Dict.t V) k :
  Dict.delitem d k <> OutOfFuel.
Proof. unfold Dict.delitem. destruct (Dict.mem d k); discriminate. Qed.

Lemma np_min_fuel a : np_min a <> OutOfFuel.
Proof. destruct a; discriminate. Qed.

Lemma np_max_fuel a : np_max a <> OutOfFuel.
Proof. destruct a; discriminate. Qed.

Lemma get_element_fuel element_id : get_element self element_id <> OutOfFuel.
Proof.
  apply bind_fuel; [apply dict_getitem_fuel|].
  intros. apply getitem_not_fuel.
Qed.

Lemma get_connected_lanes_ids_fuel lane_id :
  get_connected_lanes_ids self lane_id <> OutOfFuel.
Proof.
  unfold get_connected_lanes_ids, get_ahead_lanes_ids, get_change_lanes_ids,
    get_lane.
  repeat (apply bind_fuel; [|intros]);
    first [apply dict_getitem_fuel|apply getitem_not_fuel|discriminate].
Qed.

Lemma get_lane_bounds_fuel lane_id : get_lane_bounds self lane_id <> OutOfFuel.
Proof.
  unfold get_lane_bounds, get_lane_coords.
  apply bind_fuel.
  - apply bind_fuel; [apply get_element_fuel|].
    intros el. destruct (element el); discriminate.
  - intros [l r].
    repeat (apply bind_fuel; [first [apply np_min_fuel|apply np_max_fuel]|];
            intros).
    discriminate.
Qed.

Lemma get_lanes_ids_at_fuel position :
  get_lanes_ids_at self position <> OutOfFuel.
Proof.
  apply foldM_fuel. intros s el.
  destruct (negb (is_lane el)); [discriminate|].
  apply bind_fuel; [apply get_lane_bounds_fuel|].
  intros b. destruct (negb (in_bounds position b)); discriminate.
Qed.

Lemma get_current_lanes_ids_body_fuel position s lane_id :
  (lane_bounds <- get_lane_bounds self lane_id ;;
   if negb (in_bounds position lane_bounds) then Ok s
   else Ok (s ++ [lane_id])) <> OutOfFuel.
Proof.
  apply bind_fuel; [apply get_lane_bounds_fuel|].
  intros b. destruct (negb (in_bounds position b)); discriminate.
Qed.

Lemma get_current_lanes_ids_fuel position unvisited_lanes_ids :
  get_current_lanes_ids self position unvisited_lanes_ids <> OutOfFuel.
Proof.
  apply foldM_fuel. intros s lane_id.
  apply get_current_lanes_ids_body_fuel.
Qed.

Lemma visit_lane_fuel st lane_id : visit_lane self st lane_id <> OutOfFuel.
Proof.
  destruct st as [v u]. unfold visit_lane.
  apply bind_fuel; [apply dict_getitem_fuel|]. intros parent.
  apply bind_fuel; [apply dict_delitem_fuel|]. intros u'.
  apply bind_fuel; [apply get_connected_lanes_ids_fuel|]. discriminate.
Qed.

Lemma process_frame_fuel st position :
  process_frame self st position <> OutOfFuel.
Proof.
  apply bind_fuel; [apply get_current_lanes_ids_fuel|].
  intros current. apply foldM_fuel. apply visit_lane_fuel.
Qed.

Lemma frontier_loop_fuel frames st :
  frontier_loop self frames st <> OutOfFuel.
Proof. apply foldM_fuel. apply process_frame_fuel. Qed.
End NoFuel.

(** ** The frontier, step by step *)

Lemma frontier_steps_trans st1 st2 st3 :
  frontier_steps st1 st2 -> frontier_steps st2 st3 -> frontier_steps st1 st3.
Proof.
  induction 1 as [|? ? ? Hs H IH]; [auto|].
  intros H3. eapply steps_step; [exact Hs|auto].
Qed.

Section FrontierInvariant.
Variable initial_lanes_ids : list string.

Lemma seed_unvisited (l : list string) (d : parents) k x :
  Dict.get
    (fold_left (fun u i => Dict.set u i None) l d) k = Some x ->
  Dict.get d k = Some x \/ (x = None /\ In k l).
Proof.
  revert d. induction l as [|i l IH]; intros d; simpl; [auto|].
  intros H. apply IH in H. destruct H as [H|[-> H]]; [|auto].
  rewrite dict_get_set in H.
  destruct (String.eqb_spec k i) as [->|Hne]; [|auto].
  injection H as <-. auto.
Qed.

Lemma seed_nodup (l : list string) (d : parents) :
  NoDup (Dict.keys d) ->
  NoDup (Dict.keys (fold_left (fun u i => Dict.set u i None) l d)).
Proof.
  revert d. induction l as [|i l IH]; intros d H; simpl; [assumption|].
  apply IH. now apply dict_nodup_set.
Qed.

Lemma seed_inv : frontier_inv initial_lanes_ids (seed initial_lanes_ids).
Proof.
  unfold seed. constructor; simpl.
  - apply seed_nodup. constructor.
  - intros k H. discriminate.
  - intros k p H. apply seed_unvisited in H.
    destruct H as [H|[H _]]; discriminate.
  - intros k H. apply seed_unvisited in H.
    destruct H as [H|[_ H]]; [discriminate|assumption].
  - discriminate.
  - exists (fun _ => 0%nat). split; intros; discriminate.
Qed.

Lemma step_inv st st' :
  frontier_inv initial_lanes_ids st -> frontier_step st st' ->
  frontier_inv initial_lanes_ids st'.
Proof.
  intros [Hnd Hdis Hup Hur Hvr (depth & Hbound & Hdec)] Hstep.
  destruct Hstep as [v u lane_id parent Hget|v u lane_id c Hlane Hc];
    simpl in *.
  - (* visit *)
    assert (Hnew : Dict.get v lane_id = None).
    { apply dict_mem_false. destruct (Dict.mem v lane_id) eqn:E; auto.
      apply Hdis in E. simpl in E. apply dict_mem_false in E. congruence. }
    constructor; simpl.
    + now apply dict_nodup_remove.
    + intros k. simpl. rewrite dict_mem_set.
      destruct (String.eqb_spec k lane_id) as [->|Hne]; simpl.
      * intros _. apply dict_mem_false. now apply dict_get_remove_eq.
      * intros H. apply Hdis in H. simpl in H.
        apply dict_mem_false. rewrite dict_get_remove_neq by assumption.
        now apply dict_mem_false.
    + intros k p H. rewrite dict_mem_set. apply orb_true_iff. right.
      destruct (String.eqb_spec k lane_id) as [->|Hne].
      * rewrite dict_get_remove_eq in H by assumption. discriminate.
      * rewrite dict_get_remove_neq in H by assumption. eauto.
    + intros k H.
      destruct (String.eqb_spec k lane_id) as [->|Hne].
      * rewrite dict_get_remove_eq in H by assumption. discriminate.
      * rewrite dict_get_remove_neq in H by assumption. eauto.
    + intros k. rewrite dict_get_set.
      destruct (String.eqb_spec k lane_id) as [->|Hne]; [|auto].
      intros [= ->]. eauto.
    + exists (fun k => if String.eqb k lane_id
                       then match parent with
                            | Some p => S (depth p)
                            | None => 0%nat
                            end
                       else depth k).
      rewrite dict_length_set_new by assumption. split.
      * intros k. rewrite dict_mem_set.
        destruct (String.eqb_spec k lane_id) as [->|Hne]; simpl.
        -- intros _. destruct parent as [p|]; [|lia].
           apply Hup in Hget. apply Hbound in Hget. lia.
        -- intros H. apply Hbound in H. lia.
      * intros k p. rewrite dict_get_set, dict_mem_set.
        assert (Hp : Dict.mem v p = true -> String.eqb p lane_id = false).
        { intros H. apply String.eqb_neq. intros ->.
          apply dict_mem_get in H. congruence. }
        destruct (String.eqb_spec k lane_id) as [->|Hne].
        -- intros [= ->]. apply Hup in Hget.
           rewrite (Hp Hget), Hget. split; [reflexivity|lia].
        -- intros H. apply Hdec in H. destruct H as [H1 H2].
           rewrite (Hp H1), H1. auto.
  - (* connect *)
    constructor; simpl.
    + now apply dict_nodup_set.
    + intros k H. simpl in *. rewrite dict_mem_set.
      destruct (String.eqb_spec k c) as [->|Hne]; [congruence|].
      simpl. now apply Hdis.
    + intros k p. rewrite dict_get_set.
      destruct (String.eqb_spec k c) as [->|Hne]; [|eauto].
      now intros [= <-].
    + intros k. rewrite dict_get_set.
      destruct (String.eqb_spec k c) as [->|Hne]; [discriminate|eauto].
    + assumption.
    + now exists depth.
Qed.

Lemma steps_inv st st' :
  frontier_inv initial_lanes_ids st -> frontier_steps st st' ->
  frontier_inv initial_lanes_ids st'.
Proof.
  intros Hinv H. induction H as [|? ? ? Hs H IH]; [assumption|].
  apply IH. eapply step_inv; eassumption.
Qed.
End FrontierInvariant.

(** A visited lane stays visited. *)
Lemma step_visited_mono st st' k :
  frontier_step st st' ->
  Dict.mem (fst st) k = true -> Dict.mem (fst st') k = true.
Proof.
  intros [v u lane_id parent Hget|v u lane_id c Hlane Hc]; simpl; [|auto].
  intros H. rewrite dict_mem_set, H. apply orb_true_r.
Qed.

Lemma steps_visited_mono st st' k :
  frontier_steps st st' ->
  Dict.mem (fst st) k = true -> Dict.mem (fst st') k = true.
Proof.
  induction 1 as [|? ? ? Hs H IH]; [auto|].
  intros Hk. apply IH. eapply step_visited_mono; eassumption.
Qed.

(** ** The loops of [get_route] run by these steps *)

Section LoopsAreSteps.
Variable self : CustomMapAPI.

Lemma add_connected_steps v lane_id cs u :
  Dict.mem v lane_id = true ->
  frontier_steps (v, u) (v, add_connected v lane_id cs u).
Proof.
  intros Hl. revert u. induction cs as [|c cs IH]; intros u; simpl.
  - constructor.
  - destruct (Dict.mem v c) eqn:E; simpl; [apply IH|].
    eapply steps_step; [|apply IH]. now constructor.
Qed.

Lemma visit_lane_inv st lane_id st' :
  visit_lane self st lane_id = Ok st' ->
  exists parent connected_lanes_ids,
    Dict.get (snd st) lane_id = Some parent /\
    get_connected_lanes_ids self lane_id = Ok connected_lanes_ids /\
    st' = (Dict.set (fst st) lane_id parent,
           add_connected (Dict.set (fst st) lane_id parent) lane_id
             connected_lanes_ids (Dict.remove (snd st) lane_id)).
Proof.
  destruct st as [v u]. unfold visit_lane. intros H.
  apply bind_Ok in H. destruct H as (parent & Hp & H).
  apply bind_Ok in H. destruct H as (u' & Hu' & H).
  apply bind_Ok in H. destruct H as (cs & Hcs & [= <-]).
  unfold Dict.getitem in Hp. unfold Dict.delitem in Hu'.
  destruct (Dict.get u lane_id) as [x|] eqn:E; [|discriminate].
  injection Hp as ->.
  destruct (Dict.mem u lane_id); [|discriminate]. injection Hu' as <-.
  exists parent, cs. auto.
Qed.

Lemma visit_lane_steps st lane_id st' :
  visit_lane self st lane_id = Ok st' -> frontier_steps st st'.
Proof.
  intros H. apply visit_lane_inv in H.
  destruct H as (parent & cs & Hp & _ & ->). destruct st as [v u].
  simpl in *.
  apply steps_step with (Dict.set v lane_id parent, Dict.remove u lane_id);
    [apply step_visit; exact Hp|].
  apply add_connected_steps. rewrite dict_mem_set, String.eqb_refl.
  reflexivity.
Qed.

Lemma foldM_steps {A : Type} (body : frontier -> A -> result frontier)
  (l : list A) :
  (forall st x st', body st x = Ok st' -> frontier_steps st st') ->
  forall st st', foldM body l st = Ok st' -> frontier_steps st st'.
Proof.
  intros Hb. induction l as [|x l IH]; simpl; intros st st' H.
  - injection H as <-. constructor.
  - apply bind_Ok in H. destruct H as (st1 & H1 & H).
    eapply frontier_steps_trans; [eapply Hb|eapply IH]; eassumption.
Qed.

Lemma visit_lanes_steps current st st' :
  foldM (visit_lane self) current st = Ok st' -> frontier_steps st st'.
Proof. apply foldM_steps. apply visit_lane_steps. Qed.

Lemma process_frame_steps st position st' :
  process_frame self st position = Ok st' -> frontier_steps st st'.
Proof.
  unfold process_frame. intros H.
  apply bind_Ok in H. destruct H as (current & _ & H).
  eapply visit_lanes_steps; eassumption.
Qed.

Lemma frontier_loop_steps frames st st' :
  frontier_loop self frames st = Ok st' -> frontier_steps st st'.
Proof. apply foldM_steps. apply process_frame_steps. Qed.

Lemma firstn_prefix {A : Type} (l : list A) (n m : nat) :
  (n <= m)%nat -> exists rest, firstn m l = firstn n l ++ rest.
Proof.
  revert m l. induction n as [|n IH]; intros m l Hnm; simpl.
  - now exists (firstn m l).
  - destruct m as [|m]; [lia|]. destruct l as [|x l]; simpl.
    + now exists [].
    + destruct (IH m l) as (rest & ->); [lia|]. now exists rest.
Qed.

(** A longer prefix of a loop continues a shorter one. *)
Lemma foldM_prefix_steps {A : Type} (body : frontier -> A -> result frontier)
  (l : list A) (n m : nat) st0 st st' :
  (forall st x st', body st x = Ok st' -> frontier_steps st st') ->
  (n <= m)%nat ->
  foldM body (firstn n l) st0 = Ok st ->
  foldM body (firstn m l) st0 = Ok st' ->
  frontier_steps st st'.
Proof.
  intros Hb Hnm Hn Hm.
  destruct (firstn_prefix l Hnm) as (rest & E).
  rewrite E, foldM_app, Hn in Hm. simpl in Hm.
  eapply foldM_steps; eassumption.
Qed.

(** The lanes visited while a frame is processed are the current lanes,
    fixed before the first of them is visited. *)
Lemma get_current_lanes_ids_incl position (keys : list string) acc current :
  foldM
    (fun current_lanes_ids lane_id =>
       lane_bounds <- get_lane_bounds self lane_id ;;
       if negb (in_bounds position lane_bounds) then Ok current_lanes_ids
       else Ok (current_lanes_ids ++ [lane_id]))
    keys acc = Ok current ->
  exists rest, current = acc ++ rest /\
    forall k, In k rest <-> In k keys /\ contains self position k.
Proof.
  revert acc current. induction keys as [|k0 keys IH]; intros acc current;
    simpl.
  - intros [= <-]. exists []. rewrite app_nil_r. split; [reflexivity|].
    intros k. simpl. tauto.
  - destruct (get_lane_bounds self k0) as [b| |] eqn:Hb; simpl;
      try discriminate.
    intros H. destruct (in_bounds position b) eqn:Hin; simpl in H;
      apply IH in H; destruct H as (rest & -> & Hrest).
    + exists (k0 :: rest). rewrite <- app_assoc. split; [reflexivity|].
      intros k. simpl. rewrite Hrest. split.
      * intros [<-|[H1 H2]]; [|auto]. split; [auto|].
        exists b. split; [assumption|]. now apply in_bounds_iff.
      * intros [[<-|H1] H2]; auto.
    + exists rest. split; [reflexivity|]. intros k. rewrite Hrest. split.
      * intros [H1 H2]. auto.
      * intros [[<-|H1] H2]; [|auto]. exfalso.
        destruct H2 as (b' & Hb' & Hs). rewrite Hb in Hb'.
        injection Hb' as <-. apply in_bounds_iff in Hs. congruence.
Qed.

Lemma get_current_lanes_ids_In position unvisited_lanes_ids current :
  get_current_lanes_ids self position unvisited_lanes_ids = Ok current ->
  forall k, In k current <->
            In k (Dict.keys unvisited_lanes_ids) /\ contains self position k.
Proof.
  unfold get_current_lanes_ids. intros H.
  apply get_current_lanes_ids_incl in H.
  destruct H as (rest & -> & H). exact H.
Qed.

Lemma visit_lane_visited st lane_id st' :
  visit_lane self st lane_id = Ok st' ->
  forall k, Dict.mem (fst st') k = String.eqb k lane_id || Dict.mem (fst st) k.
Proof.
  intros H k. apply visit_lane_inv in H.
  destruct H as (parent & cs & _ & _ & ->). simpl. apply dict_mem_set.
Qed.

Lemma visit_lanes_visited current st st' :
  foldM (visit_lane self) current st = Ok st' ->
  forall k, Dict.mem (fst st') k = true <->
            Dict.mem (fst st) k = true \/ In k current.
Proof.
  revert st. induction current as [|l current IH]; intros st; simpl.
  - intros [= <-] k. tauto.
  - intros H k. apply bind_Ok in H. destruct H as (st1 & H1 & H).
    rewrite (IH _ H), (visit_lane_visited _ _ H1), orb_true_iff.
    destruct (String.eqb_spec k l) as [->|Hne]; split.
    + intros _. auto.
    + intros _. auto.
    + intros [[H0|H0]|H0]; auto; discriminate.
    + intros [H0|[H0|H0]]; auto; congruence.
Qed.
End LoopsAreSteps.

(** C4. At every step of the frame loop of [get_route] the visited and the
    unvisited lanes are disjoint. Later states of the loop, after more frames
    or after some of the current lanes of the next frame, are reached by
    frontier steps; and in every state reached by frontier steps the two
    dictionaries are disjoint, and a lane visited before is still visited and
    is not unvisited. *)
Theorem frontier_stays_disjoint (self : CustomMapAPI)
  (initial_lanes_ids : list string) (frames : list vec2) (n : nat)
  (v u : parents) :
  frontier_loop self (firstn n frames) (seed initial_lanes_ids) = Ok (v, u) ->
  disjoint (v, u) /\
  (forall m st',
      (n <= m)%nat ->
      frontier_loop self (firstn m frames) (seed initial_lanes_ids) = Ok st' ->
      frontier_steps (v, u) st') /\
  (forall position current j st',
      get_current_lanes_ids self position u = Ok current ->
      foldM (visit_lane self) (firstn j current) (v, u) = Ok st' ->
      frontier_steps (v, u) st') /\
  (forall st',
      frontier_steps (v, u) st' ->
      disjoint st' /\
      forall k, Dict.mem v k = true ->
                Dict.mem (fst st') k = true /\ Dict.mem (snd st') k = false).
Proof.
  intros H.
  assert (Hinv : frontier_inv initial_lanes_ids (v, u)).
  { eapply steps_inv; [apply seed_inv|].
    eapply frontier_loop_steps; eassumption. }
  split; [apply (inv_disjoint Hinv)|]. split; [|split].
  - intros m st' Hnm Hm. unfold frontier_loop in *.
    eapply foldM_prefix_steps; try eassumption. apply process_frame_steps.
  - intros position current j st' _ Hj.
    eapply visit_lanes_steps; eassumption.
  - intros st' Hsteps.
    assert (Hinv' : frontier_inv initial_lanes_ids st')
      by (eapply steps_inv; eassumption).
    split; [apply (inv_disjoint Hinv')|].
    intros k Hk.
    assert (Hk' : Dict.mem (fst st') k = true)
      by (eapply steps_visited_mono in Hsteps; eauto).
    split; [assumption|]. now apply (inv_disjoint Hinv').
Qed.

(** On the test map, after the first frame of the drive [A] is visited and
    [B] is unvisited; after the second, both are visited and [C] is
    unvisited. *)
Lemma frontier_stays_disjoint_witness :
  frontier_loop TestMap.chain (firstn 1 (tl TestMap.drive)) (seed ["A"])
  = Ok ([("A", None)], [("B", Some "A")]) /\
  frontier_loop TestMap.chain (firstn 2 (tl TestMap.drive)) (seed ["A"])
  = Ok ([("A", None); ("B", Some "A")], [("C", Some "B")]) /\
  disjoint ([("A", None)], [("B", Some "A")]) /\
  frontier_steps ([("A", None)], [("B", Some "A")])
    ([("A", None); ("B", Some "A")], [("C", Some "B")]).
Proof.
  split; [reflexivity|]. split; [reflexivity|].
  pose proof (frontier_stays_disjoint TestMap.chain ["A"] (tl TestMap.drive) 1
                (v := [("A", None)]) (u := [("B", Some "A")]) eq_refl)
    as (Hd & Hlater & _).
  split; [exact Hd|].
  apply (Hlater 2%nat); [repeat constructor|reflexivity].
Defined.

(** C10. The lanes visited while one trajectory sample is processed are the
    current lanes, taken from the unvisited lanes before any of them is
    visited and expanded. A lane that is neither unvisited nor visited when
    the sample starts is not visited at this sample, also when the expansion
    inserts it as unvisited and its bounds contain the position. *)
Theorem frame_visits_current_only (self : CustomMapAPI) (st : frontier)
  (position : vec2) (st' : frontier) :
  process_frame self st position = Ok st' ->
  exists current_lanes_ids,
    get_current_lanes_ids self position (snd st) = Ok current_lanes_ids /\
    foldM (visit_lane self) current_lanes_ids st = Ok st' /\
    (forall k, In k current_lanes_ids ->
               Dict.mem (snd st) k = true /\ contains self position k) /\
    (forall k, Dict.mem (fst st') k = true <->
               Dict.mem (fst st) k = true \/ In k current_lanes_ids) /\
    (forall k, Dict.mem (snd st) k = false -> Dict.mem (fst st) k = false ->
               Dict.mem (fst st') k = false).
Proof.
  unfold process_frame. intros H.
  apply bind_Ok in H. destruct H as (current & Hc & H).
  exists current. split; [assumption|]. split; [assumption|].
  assert (Hin : forall k, In k current ->
                  Dict.mem (snd st) k = true /\ contains self position k).
  { intros k Hk.
    destruct (proj1 (@get_current_lanes_ids_In self position (snd st)
                       current Hc k) Hk) as [Hk' Hcont].
    split; [|assumption].
    now apply dict_mem_keys. }
  split; [exact Hin|].
  split; [exact (@visit_lanes_visited self current st st' H)|].
  intros k Hu Hv. destruct (Dict.mem (fst st') k) eqn:E; [|reflexivity].
  apply (proj1 (@visit_lanes_visited self current st st' H k)) in E.
  destruct E as [E|E]; [congruence|].
  apply Hin in E. destruct E as [E _]. congruence.
Qed.

(** On the map of two overlapping lanes, with [A] the only unvisited lane:
    the sample (7,5) lies in [A] and in [B]; [A] is visited and [B], inserted
    as unvisited by the expansion of [A], is not. *)
Lemma frame_visits_current_only_witness :
  process_frame TestMap.overlap (seed ["A"]) (7, 5)%Q
  = Ok ([("A", None)], [("B", Some "A")]) /\
  contains TestMap.overlap (7, 5)%Q "B" /\
  Dict.mem (snd (seed ["A"])) "B" = false /\
  exists current_lanes_ids,
    get_current_lanes_ids TestMap.overlap (7, 5)%Q (snd (seed ["A"]))
    = Ok current_lanes_ids /\
    (forall k, Dict.mem (snd (seed ["A"])) k = false ->
               Dict.mem (fst (seed ["A"])) k = false ->
               Dict.mem ([("A", None)] : parents) k = false).
Proof.
  split; [reflexivity|]. split.
  { exists ((5, 0), (5 + 10, 10))%Q. split; [reflexivity|].
    apply in_bounds_iff. reflexivity. }
  split; [reflexivity|].
  destruct (frame_visits_current_only TestMap.overlap (seed ["A"]) (7, 5)%Q
              (st' := ([("A", None)], [("B", Some "A")])) eq_refl)
    as (current & Hc & _ & _ & _ & Hnot).
  exists current. split; [exact Hc|exact Hnot].
Defined.

(** ** A lane that the element table does not hold *)

Section MissingLane.
Variable self : CustomMapAPI.

Lemma add_connected_keeps v lane_id cs u c :
  Dict.mem u c = true ->
  Dict.mem (add_connected v lane_id cs u) c = true.
Proof.
  revert u. induction cs as [|c0 cs IH]; intros u H; simpl; [assumption|].
  apply IH. destruct (Dict.mem v c0); simpl; [assumption|].
  rewrite dict_mem_set, H. apply orb_true_r.
Qed.

Lemma add_connected_inserts v lane_id cs u c :
  In c cs -> Dict.mem v c = false ->
  Dict.mem (add_connected v lane_id cs u) c = true.
Proof.
  revert u. induction cs as [|c0 cs IH]; intros u Hin Hv; [contradiction|].
  simpl. destruct Hin as [->|Hin]; [|now apply IH].
  rewrite Hv. simpl. apply add_connected_keeps.
  rewrite dict_mem_set, String.eqb_refl. reflexivity.
Qed.

Lemma get_lane_bounds_missing k :
  Dict.get (ids_to_el self) k = None ->
  get_lane_bounds self k = Raise KeyError.
Proof.
  intros H.
  unfold get_lane_bounds, get_lane_coords, get_element, Dict.getitem.
  now rewrite H.
Qed.

Lemma process_frame_missing v u position k :
  Dict.mem u k = true ->
  Dict.get (ids_to_el self) k = None ->
  raises (process_frame self (v, u) position).
Proof.
  intros Hk Hmiss. unfold process_frame. apply bind_raises_l.
  unfold get_current_lanes_ids. simpl.
  apply foldM_raises with (x := k).
  - intros s y. apply get_current_lanes_ids_body_fuel.
  - now apply dict_mem_keys.
  - intros s. rewrite (get_lane_bounds_missing _ Hmiss).
    now exists KeyError.
Qed.

Lemma get_route_raises fuel trajectory initial :
  initial_lanes_ids_of self trajectory = Ok initial ->
  raises (frontier_loop self (tl trajectory) (seed initial)) ->
  raises (get_route self fuel trajectory).
Proof.
  unfold initial_lanes_ids_of, get_route. intros Hi Hr.
  apply bind_Ok in Hi. destruct Hi as (p0 & Hp0 & Hi).
  rewrite Hp0. simpl.
  apply bind_raises_r; [apply getitem_not_fuel|]. intros pf.
  rewrite Hi. simpl.
  apply bind_raises_r; [apply get_lanes_ids_at_fuel|]. intros fin.
  now apply bind_raises_l.
Qed.
End MissingLane.

(** C1, as the code has it. A lane id named by the adjacency of a visited
    lane is recorded as unvisited without being looked up, whether or not
    the element table holds it. If an unvisited lane id is absent from the
    element table when a further trajectory sample is processed, the lookup
    of its bounds raises and the whole reconstruction raises. *)
Theorem missing_lane_aborts (self : CustomMapAPI) :
  (forall st lane_id st' connected_lanes_ids,
      visit_lane self st lane_id = Ok st' ->
      get_connected_lanes_ids self lane_id = Ok connected_lanes_ids ->
      forall c, In c connected_lanes_ids ->
                Dict.mem (fst st') c = true \/ Dict.mem (snd st') c = true) /\
  (forall fuel trajectory initial n v u k,
      initial_lanes_ids_of self trajectory = Ok initial ->
      frontier_loop self (firstn n (tl trajectory)) (seed initial)
      = Ok (v, u) ->
      (n < List.length (tl trajectory))%nat ->
      Dict.mem u k = true ->
      Dict.get (ids_to_el self) k = None ->
      get_lane_bounds self k = Raise KeyError /\
      raises (frontier_loop self (tl trajectory) (seed initial)) /\
      raises (get_route self fuel trajectory)).
Proof.
  split.
  - intros st lane_id st' cs Hv Hcs c Hc.
    apply visit_lane_inv in Hv.
    destruct Hv as (parent & cs' & _ & Hcs' & ->).
    rewrite Hcs in Hcs'. injection Hcs' as <-. simpl.
    destruct (Dict.mem (Dict.set (fst st) lane_id parent) c) eqn:E; [auto|].
    right. now apply add_connected_inserts.
  - intros fuel trajectory initial n v u k Hi Hn Hlt Hk Hmiss.
    split; [now apply get_lane_bounds_missing|].
    assert (Hr : raises (frontier_loop self (tl trajectory) (seed initial))).
    { unfold frontier_loop in *.
      rewrite <- (firstn_skipn n (tl trajectory)), foldM_app, Hn. simpl.
      destruct (skipn n (tl trajectory)) as [|position rest] eqn:Es.
      - apply (f_equal (@List.length vec2)) in Es.
        rewrite length_skipn in Es. simpl in Es. lia.
      - simpl. apply bind_raises_l.
        now apply process_frame_missing with (k := k). }
    split; [exact Hr|]. eapply get_route_raises; eassumption.
Qed.

(** On the map cut after [A]: [B] is recorded when [A] is visited at the
    first frame, and the second frame raises. With no second frame nothing
    is raised. *)
Lemma missing_lane_aborts_witness :
  (frontier_loop TestMap.cut (firstn 1 (tl TestMap.drive)) (seed ["A"])
   = Ok ([("A", None)], [("B", Some "A")]) /\
   get_route TestMap.cut 10 [(5, 5); (5, 5)]%Q = Ok (Some ["A"])) /\
  get_lane_bounds TestMap.cut "B" = Raise KeyError /\
  raises (frontier_loop TestMap.cut (tl TestMap.drive) (seed ["A"])) /\
  raises (get_route TestMap.cut 10 TestMap.drive).
Proof.
  split; [split; reflexivity|].
  apply (proj2 (missing_lane_aborts TestMap.cut) 10%nat TestMap.drive ["A"]
           1%nat [("A", None)] [("B", Some "A")] "B");
    try reflexivity.
  simpl. lia.
Defined.

(** C1, as stated, fails: on the map cut after [A], lane [A] names [B]
    ahead, the element table holds no [B], and the reconstruction of the
    drive raises [KeyError]. *)
Lemma missing_lane_not_skipped :
  get_connected_lanes_ids TestMap.cut "A" = Ok ["B"] /\
  Dict.get (ids_to_el TestMap.cut) "B" = None /\
  get_route TestMap.cut 10 TestMap.drive = Raise KeyError.
Proof. repeat split. Qed.

(** ** The backtrack *)

Section Backtrack.
Variable visited_lanes_ids : parents.
Variable initial_lanes_ids : list string.

Lemma mem_str_In x l : mem_str x l = true <-> In x l.
Proof.
  unfold mem_str. rewrite existsb_exists. split.
  - intros (y & Hy & E). apply String.eqb_eq in E. now subst.
  - intros H. exists x. split; [assumption|apply String.eqb_refl].
Qed.

Lemma backtrack_unfold fuel route lane_id :
  backtrack fuel visited_lanes_ids initial_lanes_ids route lane_id =
  if existsb (fun x => mem_str x initial_lanes_ids) route then Ok route
  else
    match fuel with
    | O => OutOfFuel
    | S fuel' =>
        match lane_id with
        | None => Raise KeyError
        | Some l =>
            lane_id' <- Dict.getitem visited_lanes_ids l ;;
            backtrack fuel' visited_lanes_ids initial_lanes_ids
              (l :: route) lane_id'
        end
    end.
Proof. destruct fuel; reflexivity. Qed.

(** Whatever the fuel, a route the backtrack returns extends the route it
    started from, lane by lane, up to a first lane that is initial. *)
Lemma backtrack_sound fuel route lane_id r :
  backtrack fuel visited_lanes_ids initial_lanes_ids route lane_id = Ok r ->
  existsb (fun x => mem_str x initial_lanes_ids) route = false ->
  exists l pre first,
    lane_id = Some l /\ r = pre ++ l :: route /\
    hd_error r = Some first /\ In first initial_lanes_ids.
Proof.
  revert route lane_id.
  induction fuel as [|fuel IH]; intros route lane_id H Hstop;
    rewrite backtrack_unfold, Hstop in H; [discriminate|].
  destruct lane_id as [l|]; [|discriminate].
  apply bind_Ok in H. destruct H as (parent & _ & H).
  destruct (mem_str l initial_lanes_ids) eqn:El.
  - rewrite backtrack_unfold in H. simpl in H.
    rewrite El in H. simpl in H. injection H as <-.
    exists l, [], l. repeat split. now apply mem_str_In.
  - apply IH in H; [|simpl; now rewrite El].
    destruct H as (l' & pre & first & -> & -> & Hhd & Hin).
    exists l, (pre ++ [l']), first. rewrite <- app_assoc.
    repeat split; assumption.
Qed.

(** With the parents as the frontier keeps them, the backtrack from a
    visited lane returns within [depth] steps. *)
Lemma backtrack_returns (depth : string -> nat) :
  (forall k, Dict.get visited_lanes_ids k = Some None ->
             In k initial_lanes_ids) ->
  (forall k p, Dict.get visited_lanes_ids k = Some (Some p) ->
               Dict.mem visited_lanes_ids p = true /\
               (depth p < depth k)%nat) ->
  forall fuel l route,
    Dict.mem visited_lanes_ids l = true ->
    (depth l < fuel)%nat ->
    exists r,
      backtrack fuel visited_lanes_ids initial_lanes_ids route (Some l)
      = Ok r.
Proof.
  intros Hroot Hdec.
  induction fuel as [|fuel IH]; intros l route Hl Hfuel; [lia|].
  rewrite backtrack_unfold.
  destruct (existsb (fun x => mem_str x initial_lanes_ids) route)
    eqn:Hstop; [now exists route|].
  unfold Dict.getitem. apply dict_mem_get in Hl.
  destruct (Dict.get visited_lanes_ids l) as [parent|] eqn:Hg;
    [|congruence]. simpl.
  destruct (mem_str l initial_lanes_ids) eqn:El.
  - rewrite backtrack_unfold. simpl. rewrite El. simpl.
    now exists (l :: route).
  - destruct parent as [p|].
    + destruct (Hdec _ _ Hg) as [Hp Hlt]. apply IH; [assumption|lia].
    + apply Hroot, mem_str_In in Hg. congruence.
Qed.

Lemma find_route_sound fuel final_lanes_ids r :
  find_route fuel visited_lanes_ids initial_lanes_ids final_lanes_ids
  = Ok (Some r) ->
  exists first last pre post,
    r = first :: post /\ r = pre ++ [last] /\
    In first initial_lanes_ids /\ In last final_lanes_ids.
Proof.
  induction final_lanes_ids as [|f fin IH]; simpl; [discriminate|].
  destruct (Dict.mem visited_lanes_ids f); simpl.
  - intros H. apply bind_Ok in H. destruct H as (r' & H & [= <-]).
    apply backtrack_sound in H; [|reflexivity].
    destruct H as (l & pre & first & [= <-] & -> & Hhd & Hin).
    destruct (pre ++ [f]) as [|x post] eqn:E; [discriminate|].
    injection Hhd as ->.
    exists first, f, pre, post. auto.
  - intros H. apply IH in H.
    destruct H as (first & last & pre & post & H1 & H2 & H3 & H4).
    exists first, last, pre, post. auto.
Qed.

Lemma find_route_returns fuel final_lanes_ids unvisited_lanes_ids :
  frontier_inv initial_lanes_ids (visited_lanes_ids, unvisited_lanes_ids) ->
  (List.length visited_lanes_ids <= fuel)%nat ->
  exists res,
    find_route fuel visited_lanes_ids initial_lanes_ids final_lanes_ids
    = Ok res.
Proof.
  intros [_ _ _ _ Hroot (depth & Hbound & Hdec)] Hfuel. simpl in *.
  induction final_lanes_ids as [|f fin IH]; simpl; [now exists None|].
  destruct (Dict.mem visited_lanes_ids f) eqn:Hf; simpl; [|exact IH].
  destruct (@backtrack_returns depth Hroot Hdec fuel f [] Hf) as (r & ->).
  - apply Hbound in Hf. lia.
  - now exists (Some r).
Qed.
End Backtrack.

Lemma get_route_Ok (self : CustomMapAPI) fuel trajectory res :
  get_route self fuel trajectory = Ok res ->
  exists initial final v u,
    initial_lanes_ids_of self trajectory = Ok initial /\
    final_lanes_ids_of self trajectory = Ok final /\
    frontier_loop self (tl trajectory) (seed initial) = Ok (v, u) /\
    find_route fuel v initial final = Ok res.
Proof.
  unfold get_route, initial_lanes_ids_of, final_lanes_ids_of. intros H.
  apply bind_Ok in H. destruct H as (p0 & -> & H).
  apply bind_Ok in H. destruct H as (pf & -> & H).
  apply bind_Ok in H. destruct H as (initial & Hi & H).
  apply bind_Ok in H. destruct H as (final & Hf & H).
  apply bind_Ok in H. destruct H as ([v u] & Hl & H).
  exists initial, final, v, u. simpl. auto.
Qed.

(** C3. The backtrack of [get_route] terminates: with enough fuel
    [get_route] never runs out of it, and it returns (a route or [None])
    whenever the frame loop has returned, with fuel for one step per visited
    lane. And a route it returns starts with one of the lanes that contain
    the first trajectory sample and ends with one of the lanes that contain
    the second-to-last sample. *)
Theorem route_from_initial_to_final (self : CustomMapAPI)
  (trajectory : list vec2) :
  (exists fuel0, forall fuel,
      (fuel0 <= fuel)%nat -> get_route self fuel trajectory <> OutOfFuel) /\
  (forall initial final v u fuel,
      initial_lanes_ids_of self trajectory = Ok initial ->
      final_lanes_ids_of self trajectory = Ok final ->
      frontier_loop self (tl trajectory) (seed initial) = Ok (v, u) ->
      (List.length v <= fuel)%nat ->
      exists res, get_route self fuel trajectory = Ok res) /\
  (forall fuel route,
      get_route self fuel trajectory = Ok (Some route) ->
      exists initial final first last pre post,
        initial_lanes_ids_of self trajectory = Ok initial /\
        final_lanes_ids_of self trajectory = Ok final /\
        route = first :: post /\ route = pre ++ [last] /\
        In first initial /\ In last final).
Proof.
  assert (Hret : forall initial final v u fuel,
             initial_lanes_ids_of self trajectory = Ok initial ->
             final_lanes_ids_of self trajectory = Ok final ->
             frontier_loop self (tl trajectory) (seed initial) = Ok (v, u) ->
             (List.length v <= fuel)%nat ->
             exists res, get_route self fuel trajectory = Ok res).
  { intros initial final v u fuel Hi Hf Hl Hfuel.
    unfold initial_lanes_ids_of, final_lanes_ids_of in *.
    apply bind_Ok in Hi. destruct Hi as (p0 & Hp0 & Hi).
    apply bind_Ok in Hf. destruct Hf as (pf & Hpf & Hf).
    unfold get_route. rewrite Hp0, Hpf. simpl. rewrite Hi, Hf. simpl.
    rewrite Hl. simpl.
    apply find_route_returns with (unvisited_lanes_ids := u); [|assumption].
    eapply steps_inv; [apply seed_inv|].
    eapply frontier_loop_steps; eassumption. }
  split; [|split; [exact Hret|]].
  - unfold get_route.
    destruct (getitem trajectory 0) as [p0| |] eqn:E0; simpl;
      [|exists 0%nat; discriminate|now apply getitem_not_fuel in E0].
    destruct (getitem trajectory (-2)) as [pf| |] eqn:E2; simpl;
      [|exists 0%nat; discriminate|now apply getitem_not_fuel in E2].
    destruct (get_lanes_ids_at self p0) as [initial| |] eqn:Ei; simpl;
      [|exists 0%nat; discriminate|now apply get_lanes_ids_at_fuel in Ei].
    destruct (get_lanes_ids_at self pf) as [final| |] eqn:Ef; simpl;
      [|exists 0%nat; discriminate|now apply get_lanes_ids_at_fuel in Ef].
    destruct (frontier_loop self (tl trajectory) (seed initial))
      as [[v u]| |] eqn:El; simpl;
      [|exists 0%nat; discriminate|now apply frontier_loop_fuel in El].
    exists (List.length v). intros fuel Hfuel.
    destruct (@find_route_returns v initial fuel final u) as (res & ->);
      [|assumption|discriminate].
    eapply steps_inv; [apply seed_inv|].
    eapply frontier_loop_steps; eassumption.
  - intros fuel route H. apply get_route_Ok in H.
    destruct H as (initial & final & v & u & Hi & Hf & _ & H).
    apply find_route_sound in H.
    destruct H as (first & last & pre & post & H1 & H2 & H3 & H4).
    exists initial, final, first, last, pre, post.
    repeat split; assumption.
Qed.

(** On the test map the drive goes through [A], [B] and [C]; its first
    sample lies in [A] and its second-to-last in [C]. *)
Lemma route_from_initial_to_final_witness :
  get_route TestMap.chain 3 TestMap.drive = Ok (Some ["A"; "B"; "C"]) /\
  initial_lanes_ids_of TestMap.chain TestMap.drive = Ok ["A"] /\
  final_lanes_ids_of TestMap.chain TestMap.drive = Ok ["C"] /\
  exists initial final first last pre post,
    initial_lanes_ids_of TestMap.chain TestMap.drive = Ok initial /\
    final_lanes_ids_of TestMap.chain TestMap.drive = Ok final /\
    ["A"; "B"; "C"] = first :: post /\ ["A"; "B"; "C"] = pre ++ [last] /\
    In first initial /\ In last final.
Proof.
  split; [reflexivity|]. split; [reflexivity|]. split; [reflexivity|].
  apply (proj2 (proj2 (route_from_initial_to_final TestMap.chain
                         TestMap.drive)) 3%nat).
  reflexivity.
Defined.

(** * Further properties *)

(** ** Elements and adjacency *)

Lemma fold_left_append_filter {A : Type} (f : A -> bool) (g : A -> A)
  (l : list A) (acc : list A) :
  fold_left (fun acc x => if f (g x) then acc ++ [g x] else acc) l acc
  = acc ++ filter f (map g l).
Proof.
  revert acc. induction l as [|x l IH]; intros acc; simpl.
  - now rewrite app_nil_r.
  - rewrite IH. destruct (f (g x)); [|reflexivity].
    now rewrite <- app_assoc.
Qed.

Lemma get_connected_lanes_ids_of_element (self : CustomMapAPI)
  (lane_id : string) :
  get_connected_lanes_ids self lane_id =
  (el <- get_element self lane_id ;; Ok (connections (element_lane el))).
Proof.
  unfold get_connected_lanes_ids, get_ahead_lanes_ids, get_change_lanes_ids,
    get_lane.
  destruct (get_element self lane_id) as [el| |]; simpl; try reflexivity.
  unfold connections. rewrite fold_left_append_filter. simpl.
  destruct (str_bool (id_as_str (adjacent_lane_change_left (element_lane el))));
    destruct (str_bool
                (id_as_str (adjacent_lane_change_right (element_lane el))));
    reflexivity.
Qed.

(** X1. [get_connected_lanes_ids] fails exactly as the lookup of the element
    does: with [KeyError] for an id that is no key of [ids_to_el], with
    [IndexError] for a key whose index is beyond [elements]. For an id that
    resolves, it returns the non-empty ids ahead, in order, then the left
    and the right lane change when they are non-empty; no returned id is
    empty, and an element that is no lane has no connected lane. *)
Theorem connected_lanes_ids_spec (self : CustomMapAPI) (lane_id : string) :
  (get_connected_lanes_ids self lane_id = Raise KeyError <->
   Dict.get (ids_to_el self) lane_id = None) /\
  (get_connected_lanes_ids self lane_id = Raise IndexError <->
   exists idx, Dict.get (ids_to_el self) lane_id = Some idx /\
               (List.length (elements self) <= idx)%nat) /\
  (forall idx el,
      Dict.get (ids_to_el self) lane_id = Some idx ->
      nth_error (elements self) idx = Some el ->
      get_connected_lanes_ids self lane_id
      = Ok (connections (element_lane el)) /\
      Forall (fun c => c <> "") (connections (element_lane el)) /\
      (is_lane el = false -> connections (element_lane el) = [])).
Proof.
  rewrite get_connected_lanes_ids_of_element.
  unfold get_element, Dict.getitem.
  destruct (Dict.get (ids_to_el self) lane_id) as [idx|] eqn:Eg; simpl.
  - rewrite getitem_nat.
    destruct (nth_error (elements self) idx) as [el|] eqn:En; simpl.
    + split; [split; discriminate|]. split.
      * split; [discriminate|]. intros (idx' & [= <-] & Hlen).
        apply nth_error_None in Hlen. congruence.
      * intros idx' el' [= <-] Hn. rewrite En in Hn. injection Hn as <-.
        split; [reflexivity|]. split.
        -- unfold connections. apply Forall_app. split;
             apply Forall_forall; intros c Hc; apply filter_In in Hc;
             destruct Hc as [_ Hc]; intros ->; discriminate.
        -- unfold is_lane, element_lane. destruct (element el); [discriminate|].
           reflexivity.
    + split; [split; discriminate|]. split.
      * split; [|reflexivity]. intros _. exists idx. split; [reflexivity|].
        now apply nth_error_None.
      * intros idx' el' [= <-] Hn. congruence.
  - split; [split; reflexivity|]. split.
    + split; [discriminate|]. intros (idx & H & _). discriminate.
    + intros idx el H. discriminate.
Qed.

Lemma connected_lanes_ids_spec_witness :
  get_connected_lanes_ids EdgeMaps.broken "A" = Ok ["B"; "C"] /\
  get_connected_lanes_ids EdgeMaps.broken "S" = Ok [] /\
  get_connected_lanes_ids EdgeMaps.broken "Z" = Raise IndexError /\
  get_connected_lanes_ids EdgeMaps.broken "Q" = Raise KeyError.
Proof.
  split; [|split; [|split]].
  - apply (proj2 (proj2 (connected_lanes_ids_spec EdgeMaps.broken "A"))
             0%nat
             {| id := "A";
                element :=
                  ElementLane (TestMap.box_lane 0 ["B"; ""] "" "C") |});
      reflexivity.
  - reflexivity.
  - apply (proj1 (proj2 (connected_lanes_ids_spec EdgeMaps.broken "Z"))).
    exists 7%nat. split; [reflexivity|]. simpl. lia.
  - apply (proj1 (connected_lanes_ids_spec EdgeMaps.broken "Q")). reflexivity.
Defined.

(** ** Bounds of a lane *)

Lemma Qltb_false (a b : Q) : Qltb a b = false -> (b <= a)%Q.
Proof.
  intros H. destruct (Qlt_le_dec a b) as [Hlt|Hle]; [|assumption].
  apply Qltb_lt in Hlt. congruence.
Qed.

Lemma py_min_le (a b : Q) : (py_min a b <= a /\ py_min a b <= b)%Q.
Proof.
  unfold py_min. destruct (Qltb b a) eqn:E.
  - apply Qltb_lt in E. split; lra.
  - apply Qltb_false in E. split; lra.
Qed.

Lemma py_max_ge (a b : Q) : (a <= py_max a b /\ b <= py_max a b)%Q.
Proof.
  unfold py_max. destruct (Qltb a b) eqn:E.
  - apply Qltb_lt in E. split; lra.
  - apply Qltb_false in E. split; lra.
Qed.

Lemma py_min_cases (a b : Q) : py_min a b = a \/ py_min a b = b.
Proof. unfold py_min. destruct (Qltb b a); auto. Qed.

Lemma py_max_cases (a b : Q) : py_max a b = a \/ py_max a b = b.
Proof. unfold py_max. destruct (Qltb a b); auto. Qed.

Lemma fold_py_min (l : list Q) (x : Q) :
  In (fold_left py_min l x) (x :: l) /\
  forall y, In y (x :: l) -> (fold_left py_min l x <= y)%Q.
Proof.
  revert x. induction l as [|z l IH]; intros x; simpl.
  - split; [auto|]. intros y [<-|[]]. lra.
  - destruct (IH (py_min x z)) as [Hin Hle]. split.
    + destruct Hin as [Hin|Hin]; [|auto].
      destruct (py_min_cases x z) as [E|E]; [left|right; left];
        rewrite <- Hin; now symmetry.
    + intros y Hy. pose proof (py_min_le x z) as [H1 H2].
      pose proof (Hle (py_min x z) (or_introl eq_refl)) as H0.
      destruct Hy as [<-|[<-|Hy]]; [lra|lra|].
      apply Hle. now right.
Qed.

Lemma fold_py_max (l : list Q) (x : Q) :
  In (fold_left py_max l x) (x :: l) /\
  forall y, In y (x :: l) -> (y <= fold_left py_max l x)%Q.
Proof.
  revert x. induction l as [|z l IH]; intros x; simpl.
  - split; [auto|]. intros y [<-|[]]. lra.
  - destruct (IH (py_max x z)) as [Hin Hle]. split.
    + destruct Hin as [Hin|Hin]; [|auto].
      destruct (py_max_cases x z) as [E|E]; [left|right; left];
        rewrite <- Hin; now symmetry.
    + intros y Hy. pose proof (py_max_ge x z) as [H1 H2].
      pose proof (Hle (py_max x z) (or_introl eq_refl)) as H0.
      destruct Hy as [<-|[<-|Hy]]; [lra|lra|].
      apply Hle. now right.
Qed.

Lemma np_min_Ok (a : list Q) (m : Q) :
  np_min a = Ok m -> In m a /\ forall y, In y a -> (m <= y)%Q.
Proof.
  destruct a as [|x a]; [discriminate|]. intros [= <-]. apply fold_py_min.
Qed.

Lemma np_max_Ok (a : list Q) (m : Q) :
  np_max a = Ok m -> In m a /\ forall y, In y a -> (y <= m)%Q.
Proof.
  destruct a as [|x a]; [discriminate|]. intros [= <-]. apply fold_py_max.
Qed.

(** The bounds, when they are defined, in terms of the two boundaries. *)
Lemma get_lane_bounds_Ok (self : CustomMapAPI) (lane_id : string) (b : bounds) :
  get_lane_bounds self lane_id = Ok b ->
  exists l r lx rx ly ry lX rX lY rY,
    get_lane_coords self lane_id = Ok (l, r) /\
    np_min (col0 l) = Ok lx /\ np_min (col0 r) = Ok rx /\
    np_min (col1 l) = Ok ly /\ np_min (col1 r) = Ok ry /\
    np_max (col0 l) = Ok lX /\ np_max (col0 r) = Ok rX /\
    np_max (col1 l) = Ok lY /\ np_max (col1 r) = Ok rY /\
    b = ((py_min lx rx, py_min ly ry), (py_max lX rX, py_max lY rY)).
Proof.
  unfold get_lane_bounds. intros H.
  apply bind_Ok in H. destruct H as ([l r] & Hc & H).
  apply bind_Ok in H. destruct H as (lx & Hlx & H).
  apply bind_Ok in H. destruct H as (rx & Hrx & H).
  apply bind_Ok in H. destruct H as (ly & Hly & H).
  apply bind_Ok in H. destruct H as (ry & Hry & H).
  apply bind_Ok in H. destruct H as (lX & HlX & H).
  apply bind_Ok in H. destruct H as (rX & HrX & H).
  apply bind_Ok in H. destruct H as (lY & HlY & H).
  apply bind_Ok in H. destruct H as (rY & HrY & [= <-]).
  exists l, r, lx, rx, ly, ry, lX, rX, lY, rY.
  repeat split; assumption.
Qed.

Lemma in_col0 (l : list xyz) (pt : xyz) : In pt l -> In (fst (xy pt)) (col0 l).
Proof. intros H. unfold col0, xy. now apply (in_map (fun p => fst (fst p))). Qed.

Lemma in_col1 (l : list xyz) (pt : xyz) : In pt l -> In (snd (xy pt)) (col1 l).
Proof. intros H. unfold col1, xy. now apply (in_map (fun p => snd (fst p))). Qed.

Lemma col0_in (l : list xyz) (q : Q) :
  In q (col0 l) -> exists pt, In pt l /\ fst (xy pt) = q.
Proof.
  unfold col0. intros H. apply in_map_iff in H.
  destruct H as (pt & E & Hin). now exists pt.
Qed.

Lemma col1_in (l : list xyz) (q : Q) :
  In q (col1 l) -> exists pt, In pt l /\ snd (xy pt) = q.
Proof.
  unfold col1. intros H. apply in_map_iff in H.
  destruct H as (pt & E & Hin). now exists pt.
Qed.

Lemma get_lane_bounds_points (self : CustomMapAPI) (lane_id : string)
  (b : bounds) :
  get_lane_bounds self lane_id = Ok b ->
  exists xyz_left xyz_right,
    get_lane_coords self lane_id = Ok (xyz_left, xyz_right) /\
    xyz_left <> [] /\ xyz_right <> [] /\
    forall pt, In pt (xyz_left ++ xyz_right) ->
      (x_min b <= fst (xy pt) <= x_max b /\
       y_min b <= snd (xy pt) <= y_max b)%Q.
Proof.
  intros H. apply get_lane_bounds_Ok in H.
  destruct H as (l & r & lx & rx & ly & ry & lX & rX & lY & rY & Hc &
                 Hlx & Hrx & Hly & Hry & HlX & HrX & HlY & HrY & ->).
  exists l, r. split; [assumption|].
  split; [intros ->; discriminate|]. split; [intros ->; discriminate|].
  apply np_min_Ok in Hlx, Hrx, Hly, Hry.
  apply np_max_Ok in HlX, HrX, HlY, HrY.
  unfold x_min, x_max, y_min, y_max. simpl.
  pose proof (py_min_le lx rx) as [? ?]. pose proof (py_min_le ly ry) as [? ?].
  pose proof (py_max_ge lX rX) as [? ?]. pose proof (py_max_ge lY rY) as [? ?].
  intros pt Hpt. apply in_app_or in Hpt. destruct Hpt as [Hpt|Hpt].
  - pose proof (proj2 Hlx _ (in_col0 _ _ Hpt)).
    pose proof (proj2 HlX _ (in_col0 _ _ Hpt)).
    pose proof (proj2 Hly _ (in_col1 _ _ Hpt)).
    pose proof (proj2 HlY _ (in_col1 _ _ Hpt)).
    repeat split; lra.
  - pose proof (proj2 Hrx _ (in_col0 _ _ Hpt)).
    pose proof (proj2 HrX _ (in_col0 _ _ Hpt)).
    pose proof (proj2 Hry _ (in_col1 _ _ Hpt)).
    pose proof (proj2 HrY _ (in_col1 _ _ Hpt)).
    repeat split; lra.
Qed.

(** X2. The bounds of a lane enclose both of its boundaries: every point of
    the left and of the right boundary polyline lies between [x_min] and
    [x_max] and between [y_min] and [y_max] (inclusive), and the box is not
    inverted. *)
Theorem lane_bounds_enclose_boundaries (self : CustomMapAPI)
  (lane_id : string) (b : bounds) :
  get_lane_bounds self lane_id = Ok b ->
  exists xyz_left xyz_right,
    get_lane_coords self lane_id = Ok (xyz_left, xyz_right) /\
    (x_min b <= x_max b /\ y_min b <= y_max b)%Q /\
    forall pt, In pt (xyz_left ++ xyz_right) ->
      (x_min b <= fst (xy pt) <= x_max b /\
       y_min b <= snd (xy pt) <= y_max b)%Q.
Proof.
  intros H. apply get_lane_bounds_points in H.
  destruct H as (l & r & Hc & Hl & _ & Hpt).
  exists l, r. split; [assumption|]. split; [|exact Hpt].
  destruct l as [|pt l]; [congruence|].
  destruct (Hpt pt (or_introl eq_refl)) as [[? ?] [? ?]].
  split; lra.
Qed.

Lemma lane_bounds_enclose_boundaries_witness :
  get_lane_bounds TestMap.chain "B" = Ok ((10, 0), (10 + 10, 10))%Q /\
  exists xyz_left xyz_right,
    get_lane_coords TestMap.chain "B" = Ok (xyz_left, xyz_right) /\
    (x_min ((10, 0), (10 + 10, 10)) <= x_max ((10, 0), (10 + 10, 10)) /\
     y_min ((10, 0), (10 + 10, 10)) <= y_max ((10, 0), (10 + 10, 10)))%Q /\
    forall pt, In pt (xyz_left ++ xyz_right) ->
      (x_min ((10, 0), (10 + 10, 10)) <= fst (xy pt)
       <= x_max ((10, 0), (10 + 10, 10)) /\
       y_min ((10, 0), (10 + 10, 10)) <= snd (xy pt)
       <= y_max ((10, 0), (10 + 10, 10)))%Q.
Proof.
  split; [reflexivity|].
  apply (lane_bounds_enclose_boundaries TestMap.chain "B"). reflexivity.
Defined.

(** X3. The bounds of a lane are tight: each of [x_min], [y_min], [x_max]
    and [y_max] is a coordinate of a point of one of the two boundaries. *)
Theorem lane_bounds_attained (self : CustomMapAPI) (lane_id : string)
  (b : bounds) :
  get_lane_bounds self lane_id = Ok b ->
  exists xyz_left xyz_right,
    get_lane_coords self lane_id = Ok (xyz_left, xyz_right) /\
    (exists pt, In pt (xyz_left ++ xyz_right) /\ fst (xy pt) = x_min b) /\
    (exists pt, In pt (xyz_left ++ xyz_right) /\ snd (xy pt) = y_min b) /\
    (exists pt, In pt (xyz_left ++ xyz_right) /\ fst (xy pt) = x_max b) /\
    (exists pt, In pt (xyz_left ++ xyz_right) /\ snd (xy pt) = y_max b).
Proof.
  intros H. apply get_lane_bounds_Ok in H.
  destruct H as (l & r & lx & rx & ly & ry & lX & rX & lY & rY & Hc &
                 Hlx & Hrx & Hly & Hry & HlX & HrX & HlY & HrY & ->).
  exists l, r. split; [assumption|].
  apply np_min_Ok in Hlx, Hrx, Hly, Hry.
  apply np_max_Ok in HlX, HrX, HlY, HrY.
  unfold x_min, x_max, y_min, y_max. simpl.
  assert (Hx : forall q ql qr,
             In ql (col0 l) -> In qr (col0 r) -> q = ql \/ q = qr ->
             exists pt, In pt (l ++ r) /\ fst (xy pt) = q).
  { intros q ql qr Hl Hr [->| ->].
    - destruct (col0_in _ _ Hl) as (pt & Hin & E). exists pt.
      split; [apply in_or_app; auto|assumption].
    - destruct (col0_in _ _ Hr) as (pt & Hin & E). exists pt.
      split; [apply in_or_app; auto|assumption]. }
  assert (Hy : forall q ql qr,
             In ql (col1 l) -> In qr (col1 r) -> q = ql \/ q = qr ->
             exists pt, In pt (l ++ r) /\ snd (xy pt) = q).
  { intros q ql qr Hl Hr [->| ->].
    - destruct (col1_in _ _ Hl) as (pt & Hin & E). exists pt.
      split; [apply in_or_app; auto|assumption].
    - destruct (col1_in _ _ Hr) as (pt & Hin & E). exists pt.
      split; [apply in_or_app; auto|assumption]. }
  split; [|split; [|split]].
  - apply (Hx _ lx rx); [apply Hlx|apply Hrx|apply py_min_cases].
  - apply (Hy _ ly ry); [apply Hly|apply Hry|apply py_min_cases].
  - apply (Hx _ lX rX); [apply HlX|apply HrX|apply py_max_cases].
  - apply (Hy _ lY rY); [apply HlY|apply HrY|apply py_max_cases].
Qed.

Lemma lane_bounds_attained_witness :
  exists xyz_left xyz_right,
    get_lane_coords TestMap.chain "B" = Ok (xyz_left, xyz_right) /\
    (exists pt, In pt (xyz_left ++ xyz_right) /\
                fst (xy pt) = x_min ((10, 0), (10 + 10, 10))%Q) /\
    (exists pt, In pt (xyz_left ++ xyz_right) /\
                snd (xy pt) = y_min ((10, 0), (10 + 10, 10))%Q) /\
    (exists pt, In pt (xyz_left ++ xyz_right) /\
                fst (xy pt) = x_max ((10, 0), (10 + 10, 10))%Q) /\
    (exists pt, In pt (xyz_left ++ xyz_right) /\
                snd (xy pt) = y_max ((10, 0), (10 + 10, 10))%Q).
Proof.
  apply (lane_bounds_attained TestMap.chain "B"). reflexivity.
Defined.

(** X4. For a lane element, [get_lane_bounds] raises [ValueError] exactly
    when one of its two boundaries has no point, and returns bounds when
    both have one. *)
Theorem lane_bounds_need_both_boundaries (self : CustomMapAPI)
  (lane_id : string) (xyz_left xyz_right : list xyz) :
  get_lane_coords self lane_id = Ok (xyz_left, xyz_right) ->
  (get_lane_bounds self lane_id = Raise ValueError <->
   xyz_left = [] \/ xyz_right = []) /\
  (xyz_left <> [] -> xyz_right <> [] ->
   exists b, get_lane_bounds self lane_id = Ok b).
Proof.
  intros Hc. unfold get_lane_bounds. rewrite Hc. simpl.
  destruct xyz_left as [|pl l]; simpl.
  - split; [split; auto|]. congruence.
  - destruct xyz_right as [|pr r]; simpl.
    + split; [split; auto|]. congruence.
    + split.
      * split; [discriminate|]. intros [H|H]; discriminate.
      * intros _ _. eexists. reflexivity.
Qed.

Lemma lane_bounds_need_both_boundaries_witness :
  get_lane_coords EdgeMaps.broken "E" = Ok ([], [(50, 0, 0); (60, 0, 0)]%Q) /\
  get_lane_bounds EdgeMaps.broken "E" = Raise ValueError.
Proof.
  split; [reflexivity|].
  apply (proj1 (lane_bounds_need_both_boundaries EdgeMaps.broken "E"
                  (xyz_left := []) (xyz_right := [(50, 0, 0); (60, 0, 0)]%Q)
                  eq_refl)).
  now left.
Defined.

(** ** Midpoints by distance *)

Lemma StronglySorted_impl_in {A : Type} (R R' : A -> A -> Prop) (l : list A) :
  (forall x y, In x l -> In y l -> R x y -> R' x y) ->
  StronglySorted R l -> StronglySorted R' l.
Proof.
  intros Himpl H. induction H as [|x l Hs IH Hx]; constructor.
  - apply IH. intros a b Ha Hb. apply Himpl; now right.
  - rewrite Forall_forall in *. intros y Hy.
    apply Himpl; [now left|now right|now apply Hx].
Qed.

(** X6. [get_closest_lane_midpoints] returns all the midpoints of the lane,
    resampled every metre, each as often as it occurs, in nondecreasing
    order of the distance from the position that the code computes for them
    in float64. *)
Theorem closest_lane_midpoints_sorted {ext : Externals} (self : CustomMapAPI)
  (position : vec2) (lane_id : string) (lane : list xyz) :
  xyz_midlane self lane_id 1 INTER_METER = Ok lane ->
  exists closest_midpoints,
    get_closest_lane_midpoints self position lane_id = Ok closest_midpoints /\
    Permutation closest_midpoints (cols2 lane) /\
    StronglySorted (nearer position) closest_midpoints.
Proof.
  intros E.
  rewrite (@get_closest_lane_midpoints_Ok _ self position lane_id lane E).
  set (mids := cols2 lane). set (ds := distances position mids).
  assert (Hlen : List.length mids = List.length ds)
    by (unfold ds, distances; now rewrite length_map).
  eexists. split; [reflexivity|]. split.
  - now apply argsort_reorders.
  - apply StronglySorted_map.
    apply StronglySorted_impl_in
      with (R := fun i j => dist_le (nth i ds (Sqrt 0)) (nth j ds (Sqrt 0)));
      [|apply argsort_sorted].
    intros i j Hi Hj H.
    pose proof (argsort_in_range ds) as Hr. rewrite Forall_forall in Hr.
    apply Hr in Hi, Hj. rewrite <- Hlen in Hi, Hj.
    unfold nearer. unfold ds in H.
    now rewrite !(nth_distances position mids (0, 0)%Q) in H by assumption.
Qed.

Lemma closest_lane_midpoints_sorted_witness :
  get_closest_lane_midpoints TestMap.chain (4, 5)%Q "A"
  = Ok [(0 + 5, 5); (0, 5); (0 + 10, 5)]%Q /\
  exists closest_midpoints,
    get_closest_lane_midpoints TestMap.chain (4, 5)%Q "A"
    = Ok closest_midpoints /\
    Permutation closest_midpoints (cols2 (TestMap.midlane_of 0)) /\
    StronglySorted (nearer (4, 5)%Q) closest_midpoints.
Proof.
  split; [reflexivity|].
  apply (closest_lane_midpoints_sorted TestMap.chain (4, 5)%Q "A"
           (lane := TestMap.midlane_of 0)).
  reflexivity.
Defined.

(** ** The closest lane *)

Lemma Forall2_In_l {A B : Type} (R : A -> B -> Prop) l1 l2 x :
  Forall2 R l1 l2 -> In x l1 -> exists y, In y l2 /\ R x y.
Proof.
  induction 1 as [|a b l1 l2 Hab H IH]; [contradiction|].
  intros [<-|Hin].
  - exists b. split; [now left|assumption].
  - destruct (IH Hin) as (y & Hy & HR). exists y. split; [now right|assumption].
Qed.

(** X7. The first lane [get_closest_lanes_ids] returns is a closest one by
    the distances the code computes in float64: the computed distance from
    the position to a nearest midpoint of that lane is at most the computed
    distance to a nearest midpoint of each candidate lane. *)
Theorem closest_lane_comes_first {ext : Externals} (self : CustomMapAPI)
  (position : vec2) (closest : string) (others : list string) :
  get_closest_lanes_ids self position = Ok (Some (closest :: others)) ->
  exists d cands,
    nearest_midpoint_distance self position closest d /\
    candidate_ids self position = Ok cands /\
    forall c,
      In c cands ->
      exists dc,
        nearest_midpoint_distance self position c dc /\ dist_le d dc.
Proof.
  intros H. apply get_closest_lanes_ids_Some in H.
  destruct H as (_ & ds & _ & Hds & Hr).
  pose proof (ranked_sorted Hds) as HF. pose proof (argsort_sorts ds) as Hs.
  pose proof (ranked_perm Hds) as Hp.
  rewrite <- Hr in HF, Hp.
  destruct (map (fun k => nth k ds (Sqrt 0)) (argsort ds)) as [|d sds];
    [inversion HF|].
  inversion HF as [|? ? ? ? Hd HF']; subst.
  inversion Hs as [|? ? _ Hall]; subst.
  exists d. eexists. split; [exact Hd|].
  split; [exact (candidate_ids_Ok Hds)|].
  intros c Hc.
  apply (Permutation_in _ (Permutation_sym Hp)) in Hc.
  destruct Hc as [<-|Hc].
  - exists d. split; [exact Hd|]. unfold dist_le. apply Qle_refl.
  - destruct (@Forall2_In_l _ _ _ _ _ c HF' Hc) as (d' & Hd' & Hn).
    rewrite Forall_forall in Hall.
    exists d'. split; [exact Hn|]. now apply Hall.
Qed.

Lemma closest_lane_comes_first_witness :
  get_closest_lanes_ids TestMap.chain (13, 5)%Q = Ok (Some ["B"; "A"]) /\
  exists d cands,
    nearest_midpoint_distance TestMap.chain (13, 5)%Q "B" d /\
    candidate_ids TestMap.chain (13, 5)%Q = Ok cands /\
    forall c,
      In c cands ->
      exists dc,
        nearest_midpoint_distance TestMap.chain (13, 5)%Q c dc /\
        dist_le d dc.
Proof.
  split; [reflexivity|].
  apply (closest_lane_comes_first TestMap.chain (13, 5)%Q (others := ["A"])).
  reflexivity.
Defined.

Lemma argsort_nil {ext : Externals} : argsort [] = [].
Proof.
  pose proof (argsort_length []) as H. simpl in H.
  now destruct (argsort []).
Qed.

(** X8. [get_closest_lanes_ids] raises [IndexError] when the lane of a
    candidate has no midpoint (and the candidates before it are listed and
    have one), whatever the other candidates are. *)
Theorem closest_lanes_need_midpoints {ext : Externals} (self : CustomMapAPI)
  (position : vec2) (before after : list nat) (lane_idx : nat)
  (lane_id : string) :
  coarse_candidates self position = before ++ lane_idx :: after ->
  Forall (rankable self) before ->
  nth_error (bounds_info_lanes_ids self) lane_idx = Some lane_id ->
  xyz_midlane self lane_id 1 INTER_METER = Ok [] ->
  get_closest_lanes_ids self position = Raise IndexError.
Proof.
  intros Hc Hbefore Hid Hmid.
  rewrite get_closest_lanes_ids_unfold, Hc.
  destruct (before ++ lane_idx :: after) as [|i l] eqn:E;
    [now destruct before|].
  simpl Nat.eqb. cbv iota. rewrite <- E. clear E.
  rewrite foldM_app.
  destruct (@distance_loop_total _ self position _ [] Hbefore) as (ds & ->).
  simpl. unfold distance_body at 1. rewrite getitem_nat, Hid. simpl.
  rewrite (@get_closest_lane_midpoints_Ok _ self position lane_id [] Hmid).
  unfold distances, cols2. simpl. rewrite argsort_nil. reflexivity.
Qed.

Lemma closest_lanes_need_midpoints_witness :
  coarse_candidates EdgeMaps.broken (55, 1)%Q = [] ++ 1%nat :: [] /\
  get_closest_lanes_ids EdgeMaps.broken (55, 1)%Q = Raise IndexError.
Proof.
  split; [reflexivity|].
  apply (@closest_lanes_need_midpoints _ EdgeMaps.broken (55, 1)%Q
           [] [] 1%nat "E");
    [reflexivity|constructor|reflexivity|reflexivity].
Defined.

(** ** Lanes at a position, in order *)

Lemma get_lanes_ids_at_filter_acc (self : CustomMapAPI) (p : vec2)
  (els : list MapElement) (acc r : list string) :
  foldM
    (fun lanes_ids element =>
       if negb (is_lane element) then Ok lanes_ids
       else
         let lane_id := id_as_str (id element) in
         lane_bounds <- get_lane_bounds self lane_id ;;
         if negb (in_bounds p lane_bounds) then Ok lanes_ids
         else Ok (lanes_ids ++ [lane_id]))
    els acc = Ok r ->
  r = acc ++ map (fun el => id_as_str (id el)) (filter (lane_contains_b self p) els).
Proof.
  revert acc r. induction els as [|el els IH]; intros acc r; simpl.
  - intros [= <-]. now rewrite app_nil_r.
  - unfold lane_contains_b at 1. destruct (is_lane el); simpl.
    + destruct (get_lane_bounds self (id_as_str (id el))) as [b| |]; simpl;
        try discriminate.
      destruct (in_bounds p b); simpl; intros H; apply IH in H; subst r.
      * now rewrite <- app_assoc.
      * reflexivity.
    + apply IH.
Qed.

(** X9. [get_lanes_ids_at] returns the ids of the lane elements whose bounds
    strictly contain the position in the order of [elements], one id for
    each such element. *)
Theorem lanes_at_in_element_order (self : CustomMapAPI) (position : vec2)
  (lanes_ids : list string) :
  get_lanes_ids_at self position = Ok lanes_ids ->
  lanes_ids =
  map (fun el => id_as_str (id el))
    (filter (lane_contains_b self position) (elements self)).
Proof.
  unfold get_lanes_ids_at. intros H.
  now apply get_lanes_ids_at_filter_acc in H.
Qed.

Lemma lanes_at_in_element_order_witness :
  get_lanes_ids_at EdgeMaps.fork (15, 5)%Q = Ok ["B"; "C"] /\
  ["B"; "C"] =
  map (fun el => id_as_str (id el))
    (filter (lane_contains_b EdgeMaps.fork (15, 5)%Q)
       (elements EdgeMaps.fork)).
Proof.
  split; [reflexivity|].
  apply (lanes_at_in_element_order EdgeMaps.fork (15, 5)%Q). reflexivity.
Defined.

Lemma get_lanes_ids_at_returns_acc (self : CustomMapAPI) (p : vec2)
  (els : list MapElement) (acc : list string) :
  (exists r,
      foldM
        (fun lanes_ids element =>
           if negb (is_lane element) then Ok lanes_ids
           else
             let lane_id := id_as_str (id element) in
             lane_bounds <- get_lane_bounds self lane_id ;;
             if negb (in_bounds p lane_bounds) then Ok lanes_ids
             else Ok (lanes_ids ++ [lane_id]))
        els acc = Ok r) <->
  (forall el, In el els -> is_lane el = true ->
     exists b, get_lane_bounds self (id_as_str (id el)) = Ok b).
Proof.
  revert acc. induction els as [|el els IH]; intros acc.
  - split; [intros _ el []|]. intros _. now exists acc.
  - simpl foldM. destruct (is_lane el) eqn:Hl; simpl negb; cbv iota.
    + destruct (get_lane_bounds self (id_as_str (id el))) as [b| |] eqn:Hb;
        simpl bind.
      * destruct (negb (in_bounds p b)); split.
        -- intros H el' [<-|Hin] Hl'; [now exists b|].
           apply (proj1 (IH _) H); assumption.
        -- intros H. apply (proj2 (IH _)). intros el' Hin. apply H. now right.
        -- intros H el' [<-|Hin] Hl'; [now exists b|].
           apply (proj1 (IH _) H); assumption.
        -- intros H. apply (proj2 (IH _)). intros el' Hin. apply H. now right.
      * split; [intros (r & H); discriminate|].
        intros H. destruct (H el (or_introl eq_refl) Hl) as (b & Hb').
        congruence.
      * split; [intros (r & H); discriminate|].
        intros H. destruct (H el (or_introl eq_refl) Hl) as (b & Hb').
        congruence.
    + split.
      * intros H el' [<-|Hin] Hl'; [congruence|].
        apply (proj1 (IH _) H); assumption.
      * intros H. apply (proj2 (IH _)). intros el' Hin. apply H. now right.
Qed.

(** X10. [get_lanes_ids_at] returns exactly when the bounds of every lane
    element of the map are defined: a single lane element without bounds
    (a boundary without points, say) makes it raise at every position, also
    far from that lane. Elements that are no lanes are passed over. *)
Theorem lanes_at_needs_all_bounds (self : CustomMapAPI) (position : vec2) :
  (exists lanes_ids, get_lanes_ids_at self position = Ok lanes_ids) <->
  (forall el, In el (elements self) -> is_lane el = true ->
     exists b, get_lane_bounds self (id_as_str (id el)) = Ok b).
Proof.
  unfold get_lanes_ids_at. apply get_lanes_ids_at_returns_acc.
Qed.

Lemma lanes_at_needs_all_bounds_witness :
  get_lane_bounds EdgeMaps.broken "E" = Raise ValueError /\
  get_lanes_ids_at EdgeMaps.broken (5, 5)%Q = Raise ValueError /\
  ~ (forall el, In el (elements EdgeMaps.broken) -> is_lane el = true ->
       exists b, get_lane_bounds EdgeMaps.broken (id_as_str (id el)) = Ok b).
Proof.
  split; [reflexivity|]. split; [reflexivity|].
  intros H.
  apply (proj2 (lanes_at_needs_all_bounds EdgeMaps.broken (5, 5)%Q)) in H.
  destruct H as (r & H). discriminate.
Defined.

(** ** Progress at a strictly nearest midpoint *)

Lemma get_lane_progress_head {ext : Externals} (self : CustomMapAPI)
  (position : vec2) (lane_id : string) (lane : list xyz) :
  xyz_midlane self lane_id (inject_Z (max_points_per_lane self))
    INTER_ENSURE_LEN = Ok lane ->
  get_lane_progress self position lane_id =
  match argsort (distances position (cols2 lane)) with
  | [] => Raise IndexError
  | i :: _ => Ok (nth i (linspace01 (List.length (cols2 lane))) 0%Q)
  end.
Proof.
  intros E. unfold get_lane_progress. rewrite E. simpl.
  fold (distances position (cols2 lane)).
  rewrite (take_indices_in_range _ 0%Q).
  - now destruct (argsort (distances position (cols2 lane))).
  - pose proof (argsort_in_range (distances position (cols2 lane))) as Hr.
    unfold distances in Hr at 1. rewrite length_map in Hr.
    now rewrite linspace01_length.
Qed.

(** X11. When the distance the code computes in float64 from the position
    to midpoint [j] of the lane is strictly less than the one it computes to
    every other midpoint, [get_lane_progress] returns the progress value of
    that midpoint, entry [j] of [np.linspace(0, 1, n)] for [n] midpoints,
    whatever order [argsort] gives to equal distances. *)
Theorem lane_progress_at_strictly_nearest {ext : Externals}
  (self : CustomMapAPI) (position : vec2) (lane_id : string)
  (lane : list xyz) (j : nat) :
  xyz_midlane self lane_id (inject_Z (max_points_per_lane self))
    INTER_ENSURE_LEN = Ok lane ->
  (j < List.length (cols2 lane))%nat ->
  (forall i, (i < List.length (cols2 lane))%nat -> i <> j ->
     dist_lt (linalg_norm_axis (nth j (cols2 lane) (0, 0)%Q) position)
       (linalg_norm_axis (nth i (cols2 lane) (0, 0)%Q) position)) ->
  exists progress,
    get_lane_progress self position lane_id = Ok progress /\
    nth_error (linspace01 (List.length (cols2 lane))) j = Some progress.
Proof.
  intros E Hj Hstrict. rewrite (@get_lane_progress_head _ self position lane_id lane E).
  set (mids := cols2 lane) in *. set (ds := distances position mids).
  assert (Hlen : List.length ds = List.length mids)
    by (unfold ds, distances; now rewrite length_map).
  destruct (argsort ds) as [|i rest] eqn:Ea.
  { exfalso. apply (f_equal (@List.length nat)) in Ea.
    rewrite argsort_length, Hlen in Ea. simpl in Ea. lia. }
  destruct (argsort_head_least _ Ea) as [Hi Hleast]. rewrite Hlen in Hi.
  assert (i = j) as ->.
  { destruct (Nat.eq_dec i j) as [|Hne]; [assumption|]. exfalso.
    specialize (Hstrict i Hi Hne). specialize (Hleast j).
    rewrite Hlen in Hleast. specialize (Hleast Hj).
    unfold ds in Hleast.
    rewrite !(nth_distances position mids (0, 0)%Q) in Hleast by assumption.
    unfold dist_lt in Hstrict. unfold dist_le in Hleast. lra. }
  eexists. split; [reflexivity|].
  apply nth_error_nth'. now rewrite linspace01_length.
Qed.

Lemma lane_progress_at_strictly_nearest_witness :
  (1 < List.length (cols2 (TestMap.midlane_of 0)))%nat /\
  get_lane_progress TestMap.chain (4, 5)%Q "A" = Ok (1 # 2)%Q /\
  exists progress,
    get_lane_progress TestMap.chain (4, 5)%Q "A" = Ok progress /\
    nth_error (linspace01 (List.length (cols2 (TestMap.midlane_of 0)))) 1
    = Some progress.
Proof.
  split; [simpl; lia|]. split; [vm_compute; reflexivity|].
  apply (@lane_progress_at_strictly_nearest _ TestMap.chain (4, 5)%Q "A"
           (TestMap.midlane_of 0) 1%nat).
  - reflexivity.
  - simpl. lia.
  - intros i Hi Hne. simpl in Hi.
    destruct i as [|[|[|i]]]; try lia; try congruence; dist_compute.
Defined.

(** X12. Given the resampled midlane, [get_lane_progress] raises
    [IndexError] exactly when the lane has no midpoint, and returns a value
    otherwise. *)
Theorem lane_progress_needs_midpoint {ext : Externals} (self : CustomMapAPI)
  (position : vec2) (lane_id : string) (lane : list xyz) :
  xyz_midlane self lane_id (inject_Z (max_points_per_lane self))
    INTER_ENSURE_LEN = Ok lane ->
  (get_lane_progress self position lane_id = Raise IndexError <-> lane = []) /\
  (lane <> [] ->
   exists progress, get_lane_progress self position lane_id = Ok progress).
Proof.
  intros E. rewrite (@get_lane_progress_head _ self position lane_id lane E).
  pose proof (argsort_length (distances position (cols2 lane))) as Hlen.
  unfold distances in Hlen at 2. unfold cols2 in Hlen at 2.
  rewrite !length_map in Hlen.
  destruct (argsort (distances position (cols2 lane))) as [|i rest];
    simpl in Hlen.
  - assert (lane = []) by (destruct lane; [reflexivity|discriminate]).
    split; [tauto|]. congruence.
  - split.
    + split; [discriminate|]. intros ->. discriminate.
    + intros _. eexists. reflexivity.
Qed.

Lemma lane_progress_needs_midpoint_witness :
  xyz_midlane EdgeMaps.broken "E"
    (inject_Z (max_points_per_lane EdgeMaps.broken)) INTER_ENSURE_LEN = Ok [] /\
  get_lane_progress EdgeMaps.broken (55, 1)%Q "E" = Raise IndexError.
Proof.
  split; [reflexivity|].
  apply (proj1 (@lane_progress_needs_midpoint _ EdgeMaps.broken (55, 1)%Q
                  "E" [] eq_refl)).
  reflexivity.
Defined.

(** ** Routes *)

(** X13. [get_route] raises [IndexError] on a trajectory of fewer than two
    samples, before it looks at the map. *)
Theorem get_route_needs_two_samples (self : CustomMapAPI) (fuel : nat)
  (trajectory : list vec2) :
  (List.length trajectory < 2)%nat ->
  get_route self fuel trajectory = Raise IndexError.
Proof.
  intros H. destruct trajectory as [|p0 [|p1 t]]; [reflexivity|reflexivity|].
  simpl in H. lia.
Qed.

Lemma get_route_needs_two_samples_witness :
  (List.length [(5, 5)%Q] < 2)%nat /\
  get_route TestMap.chain 5 [(5, 5)%Q] = Raise IndexError.
Proof.
  split; [simpl; lia|].
  apply (get_route_needs_two_samples TestMap.chain 5 [(5, 5)%Q]). simpl. lia.
Defined.

Lemma add_connected_get_keeps v lane_id cs (u : parents) c :
  Dict.get u c = Some (Some lane_id) ->
  Dict.get (add_connected v lane_id cs u) c = Some (Some lane_id).
Proof.
  revert u. induction cs as [|c0 cs IH]; intros u H; simpl; [assumption|].
  apply IH. destruct (Dict.mem v c0); simpl; [assumption|].
  rewrite dict_get_set. now destruct (String.eqb c c0).
Qed.

Lemma add_connected_get_new v lane_id cs (u : parents) c :
  In c cs -> Dict.mem v c = false ->
  Dict.get (add_connected v lane_id cs u) c = Some (Some lane_id).
Proof.
  revert u. induction cs as [|c0 cs IH]; intros u Hin Hv; [contradiction|].
  simpl. destruct Hin as [->|Hin]; [|now apply IH].
  rewrite Hv. simpl. apply add_connected_get_keeps.
  now rewrite dict_get_set, String.eqb_refl.
Qed.

(** What [add_connected] leaves in the unvisited lanes: an entry that was
    there, or a connected lane with the visited lane as parent. *)
Lemma add_connected_get_inv v lane_id cs (u : parents) c x :
  Dict.get (add_connected v lane_id cs u) c = Some x ->
  Dict.get u c = Some x \/ (x = Some lane_id /\ In c cs).
Proof.
  revert u. induction cs as [|c0 cs IH]; intros u; simpl; [auto|].
  intros H. apply IH in H. destruct H as [H|[-> H]]; [|auto].
  destruct (Dict.mem v c0); simpl in H; [auto|].
  rewrite dict_get_set in H.
  destruct (String.eqb_spec c c0) as [->|Hne]; [|auto].
  injection H as <-. auto.
Qed.

(** X14. When a lane is visited, each of its connected lanes that is not
    visited gets this lane as parent in the unvisited lanes, also when it
    was unvisited with another parent before: the last lane visited
    wins. *)
Theorem visit_sets_parent_of_connected (self : CustomMapAPI) (st : frontier)
  (lane_id : string) (st' : frontier) (connected_lanes_ids : list string) :
  visit_lane self st lane_id = Ok st' ->
  get_connected_lanes_ids self lane_id = Ok connected_lanes_ids ->
  forall c, In c connected_lanes_ids ->
            Dict.mem (fst st') c = false ->
            Dict.get (snd st') c = Some (Some lane_id).
Proof.
  intros Hv Hcs c Hc Hnv. apply visit_lane_inv in Hv.
  destruct Hv as (parent & cs' & _ & Hcs' & ->).
  rewrite Hcs in Hcs'. injection Hcs' as <-. simpl in *.
  now apply add_connected_get_new.
Qed.

(** On the map with the fork, [B] and [C] are unvisited with parent [A];
    visiting [B], which has [C] as lane change, makes [B] the parent of
    [C]. *)
Lemma visit_sets_parent_of_connected_witness :
  visit_lane EdgeMaps.fork
    ([("A", None)], [("B", Some "A"); ("C", Some "A")]) "B"
  = Ok ([("A", None); ("B", Some "A")], [("C", Some "B")]) /\
  Dict.get ([("C", Some "B")] : parents) "C" = Some (Some "B").
Proof.
  split; [reflexivity|].
  apply (visit_sets_parent_of_connected EdgeMaps.fork
           ([("A", None)], [("B", Some "A"); ("C", Some "A")]) "B"
           (st' := ([("A", None); ("B", Some "A")], [("C", Some "B")]))
           (connected_lanes_ids := ["C"]));
    [reflexivity|reflexivity|now left|reflexivity].
Defined.

(** *** What the backtrack walks through *)

Lemma backtrack_chain (v : parents) (initial_lanes_ids : list string)
  (fuel : nat) (route : list string) (lane_id : option string)
  (r : list string) :
  backtrack fuel v initial_lanes_ids route lane_id = Ok r ->
  parent_chain v route ->
  match route with b :: _ => Dict.get v b = Some lane_id | [] => True end ->
  (forall x, In x route -> Dict.mem v x = true) ->
  parent_chain v r /\ forall x, In x r -> Dict.mem v x = true.
Proof.
  revert route lane_id.
  induction fuel as [|fuel IH]; intros route lane_id H Hchain Hhead Hmem;
    rewrite backtrack_unfold in H;
    destruct (existsb (fun x => mem_str x initial_lanes_ids) route).
  - injection H as <-. auto.
  - discriminate.
  - injection H as <-. auto.
  - destruct lane_id as [l|]; [|discriminate].
    apply bind_Ok in H. destruct H as (parent & Hp & H).
    unfold Dict.getitem in Hp.
    destruct (Dict.get v l) as [x|] eqn:Hg; [|discriminate].
    injection Hp as ->.
    apply IH in H; [assumption| | |].
    + destruct route as [|b route']; simpl; auto.
    + exact Hg.
    + intros y [<-|Hy]; [|auto]. apply dict_mem_get. congruence.
Qed.

Lemma find_route_chain (v : parents) (initial_lanes_ids : list string)
  (fuel : nat) (final_lanes_ids : list string) (r : list string) :
  find_route fuel v initial_lanes_ids final_lanes_ids = Ok (Some r) ->
  parent_chain v r /\ forall x, In x r -> Dict.mem v x = true.
Proof.
  induction final_lanes_ids as [|f fin IH]; simpl; [discriminate|].
  destruct (Dict.mem v f); simpl; [|exact IH].
  intros H. apply bind_Ok in H. destruct H as (r' & H & [= <-]).
  apply backtrack_chain in H; simpl; auto.
Qed.

Lemma find_route_first_visited (v : parents) (initial_lanes_ids : list string)
  (fuel : nat) (final_lanes_ids : list string)
  (res : option (list string)) :
  find_route fuel v initial_lanes_ids final_lanes_ids = Ok res ->
  match first_visited v final_lanes_ids with
  | None => res = None
  | Some f => exists pre, res = Some (pre ++ [f])
  end.
Proof.
  induction final_lanes_ids as [|f fin IH]; simpl.
  - now intros [= <-].
  - destruct (Dict.mem v f); simpl; [|exact IH].
    intros H. apply bind_Ok in H. destruct H as (r' & H & [= <-]).
    apply backtrack_sound in H; [|reflexivity].
    destruct H as (l & pre & first & [= <-] & -> & _).
    now exists pre.
Qed.

(** *** What the frame loop keeps *)

Section FrameLoop.
Variable self : CustomMapAPI.
Variable initial_lanes_ids : list string.

Lemma frontier_loop_sampled (frames : list vec2) (st st' : frontier) :
  frontier_loop self frames st = Ok st' ->
  forall k, Dict.mem (fst st') k = true ->
            Dict.mem (fst st) k = true \/ sampled self frames k.
Proof.
  unfold frontier_loop. revert st.
  induction frames as [|position frames IH]; intros st; simpl.
  - intros [= <-] k. auto.
  - intros H k Hk. apply bind_Ok in H. destruct H as (st1 & H1 & H).
    destruct (IH _ H k Hk) as [Hk1|(pos & Hin & Hc)].
    + unfold process_frame in H1. apply bind_Ok in H1.
      destruct H1 as (current & Hcur & H1).
      apply (proj1 (@visit_lanes_visited self current st st1 H1 k)) in Hk1.
      destruct Hk1 as [Hk1|Hk1]; [auto|]. right.
      apply (proj1 (@get_current_lanes_ids_In self position (snd st) current
                      Hcur k)) in Hk1.
      exists position. split; [now left|apply Hk1].
    + right. exists pos. split; [now right|assumption].
Qed.

Lemma dict_get_remove_some (d : parents) (k' k : string) x :
  NoDup (Dict.keys d) ->
  Dict.get (Dict.remove d k') k = Some x -> Dict.get d k = Some x.
Proof.
  intros Hnd H. destruct (String.eqb_spec k k') as [->|Hne].
  - rewrite dict_get_remove_eq in H by assumption. discriminate.
  - now rewrite dict_get_remove_neq in H.
Qed.

Lemma seed_ok : frontier_ok self initial_lanes_ids (seed initial_lanes_ids).
Proof.
  split; [apply seed_inv|]. intros k p [H|H]; [discriminate|].
  unfold seed in H. simpl in H. apply seed_unvisited in H.
  destruct H as [H|[H _]]; discriminate.
Qed.

Lemma visit_lane_ok (st : frontier) (lane_id : string) (st' : frontier) :
  frontier_ok self initial_lanes_ids st ->
  visit_lane self st lane_id = Ok st' ->
  frontier_ok self initial_lanes_ids st'.
Proof.
  intros [Hinv Hconn] Hv. split.
  - eapply steps_inv; [exact Hinv|]. eapply visit_lane_steps; eassumption.
  - apply visit_lane_inv in Hv.
    destruct Hv as (parent & cs & Hp & Hcs & ->). destruct st as [v u].
    simpl in *. intros k p [H|H]; simpl in H.
    + rewrite dict_get_set in H.
      destruct (String.eqb_spec k lane_id) as [->|Hne].
      * injection H as ->. apply Hconn. now right.
      * apply Hconn. now left.
    + apply add_connected_get_inv in H.
      destruct H as [H|[[= ->] Hin]].
      * apply dict_get_remove_some in H; [|apply (inv_nodup Hinv)].
        apply Hconn. now right.
      * now exists cs.
Qed.

Lemma frontier_loop_ok (frames : list vec2) (st st' : frontier) :
  frontier_ok self initial_lanes_ids st ->
  frontier_loop self frames st = Ok st' ->
  frontier_ok self initial_lanes_ids st'.
Proof.
  unfold frontier_loop. apply foldM_invariant.
  intros s position s' _ Hs H. unfold process_frame in H.
  apply bind_Ok in H. destruct H as (current & _ & H).
  revert Hs H. apply foldM_invariant.
  intros s0 lane_id s1 _. apply visit_lane_ok.
Qed.

Lemma parent_chain_connected (st : frontier) (r : list string) :
  parents_connected self st -> parent_chain (fst st) r ->
  connected_path self r.
Proof.
  intros Hconn. induction r as [|a [|b r] IH]; simpl; auto.
  intros [Hab Hchain]. split; [|now apply IH].
  apply Hconn. now left.
Qed.

Lemma parent_chain_increasing (v : parents) (depth : string -> nat)
  (r : list string) :
  (forall k p, Dict.get v k = Some (Some p) -> (depth p < depth k)%nat) ->
  parent_chain v r ->
  StronglySorted (fun a b => (depth a < depth b)%nat) r.
Proof.
  intros Hdec. induction r as [|a [|b r] IH]; simpl.
  - constructor.
  - repeat constructor.
  - intros [Hab Hchain]. specialize (IH Hchain).
    constructor; [assumption|].
    inversion IH as [|? ? _ Hall]; subst.
    apply Hdec in Hab. constructor; [assumption|].
    eapply Forall_impl; [|exact Hall]. simpl. intros x Hx. lia.
Qed.

Lemma increasing_NoDup (depth : string -> nat) (r : list string) :
  StronglySorted (fun a b => (depth a < depth b)%nat) r -> NoDup r.
Proof.
  induction 1 as [|a r Hs IH Hall]; constructor; [|assumption].
  intros Hin. rewrite Forall_forall in Hall. apply Hall in Hin. lia.
Qed.
End FrameLoop.

(** X15. Every lane of a route [get_route] returns was visited: its bounds
    strictly contain a trajectory sample other than the first one. *)
Theorem route_lanes_contain_a_sample (self : CustomMapAPI) (fuel : nat)
  (trajectory : list vec2) (route : list string) :
  get_route self fuel trajectory = Ok (Some route) ->
  forall lane_id, In lane_id route -> sampled self (tl trajectory) lane_id.
Proof.
  intros H lane_id Hin. apply get_route_Ok in H.
  destruct H as (initial & final & v & u & _ & _ & Hl & H).
  apply find_route_chain in H. destruct H as [_ Hmem].
  apply Hmem in Hin.
  destruct (@frontier_loop_sampled self (tl trajectory) (seed initial) (v, u)
              Hl lane_id Hin) as [H|H]; [|assumption].
  discriminate.
Qed.

Lemma route_lanes_contain_a_sample_witness :
  get_route TestMap.chain 3 TestMap.drive = Ok (Some ["A"; "B"; "C"]) /\
  forall lane_id, In lane_id ["A"; "B"; "C"] ->
                  sampled TestMap.chain (tl TestMap.drive) lane_id.
Proof.
  split; [reflexivity|].
  apply (route_lanes_contain_a_sample TestMap.chain 3 TestMap.drive).
  reflexivity.
Defined.

(** X16. A route [get_route] returns is a path of the lane graph: each lane
    but the first is among the connected lanes (ahead, or a lane change
    away) of the lane before it. *)
Theorem route_is_connected_path (self : CustomMapAPI) (fuel : nat)
  (trajectory : list vec2) (route : list string) :
  get_route self fuel trajectory = Ok (Some route) ->
  connected_path self route.
Proof.
  intros H. apply get_route_Ok in H.
  destruct H as (initial & final & v & u & _ & _ & Hl & H).
  apply find_route_chain in H. destruct H as [Hchain _].
  apply (@frontier_loop_ok self initial (tl trajectory) (seed initial) (v, u)
           (seed_ok self initial)) in Hl.
  destruct Hl as [_ Hconn].
  now apply (@parent_chain_connected self (v, u) route).
Qed.

Lemma route_is_connected_path_witness :
  get_route TestMap.chain 3 TestMap.drive = Ok (Some ["A"; "B"; "C"]) /\
  connected_path TestMap.chain ["A"; "B"; "C"].
Proof.
  split; [reflexivity|].
  apply (route_is_connected_path TestMap.chain 3 TestMap.drive). reflexivity.
Defined.

(** X17. No lane occurs twice in a route [get_route] returns, also when the
    lane graph has cycles. *)
Theorem route_has_no_repeated_lane (self : CustomMapAPI) (fuel : nat)
  (trajectory : list vec2) (route : list string) :
  get_route self fuel trajectory = Ok (Some route) -> NoDup route.
Proof.
  intros H. apply get_route_Ok in H.
  destruct H as (initial & final & v & u & _ & _ & Hl & H).
  apply find_route_chain in H. destruct H as [Hchain _].
  apply (@frontier_loop_ok self initial (tl trajectory) (seed initial) (v, u)
           (seed_ok self initial)) in Hl.
  destruct Hl as [[_ _ _ _ _ (depth & _ & Hdec)] _]. simpl in Hdec.
  apply increasing_NoDup with depth.
  apply parent_chain_increasing with v; [|assumption].
  intros k p Hk. now apply Hdec.
Qed.

Lemma route_has_no_repeated_lane_witness :
  get_route EdgeMaps.fork 5 [(5, 5); (5, 5); (15, 5); (15, 5); (15, 5)]%Q
  = Ok (Some ["A"; "B"]) /\
  NoDup ["A"; "B"].
Proof.
  split; [reflexivity|].
  apply (route_has_no_repeated_lane EdgeMaps.fork 5
           [(5, 5); (5, 5); (15, 5); (15, 5); (15, 5)]%Q).
  reflexivity.
Defined.

(** X18. The destination of the route is the first of the final lanes, in
    the order [get_lanes_ids_at] returns them, that the frame loop has
    visited; [get_route] returns [None] exactly when none of them is
    visited. *)
Theorem route_ends_at_first_visited_final (self : CustomMapAPI) (fuel : nat)
  (trajectory : list vec2) (res : option (list string)) :
  get_route self fuel trajectory = Ok res ->
  exists initial final v u,
    initial_lanes_ids_of self trajectory = Ok initial /\
    final_lanes_ids_of self trajectory = Ok final /\
    frontier_loop self (tl trajectory) (seed initial) = Ok (v, u) /\
    match first_visited v final with
    | None => res = None
    | Some f => exists pre, res = Some (pre ++ [f])
    end.
Proof.
  intros H. apply get_route_Ok in H.
  destruct H as (initial & final & v & u & Hi & Hf & Hl & H).
  exists initial, final, v, u. repeat split; try assumption.
  eapply find_route_first_visited; eassumption.
Qed.

(** On the map with the fork the second-to-last sample lies in [B] and in
    [C], both visited; the route ends at [B], the first of the two. *)
Lemma route_ends_at_first_visited_final_witness :
  final_lanes_ids_of EdgeMaps.fork
    [(5, 5); (5, 5); (15, 5); (15, 5); (15, 5)]%Q = Ok ["B"; "C"] /\
  exists initial final v u,
    initial_lanes_ids_of EdgeMaps.fork
      [(5, 5); (5, 5); (15, 5); (15, 5); (15, 5)]%Q = Ok initial /\
    final_lanes_ids_of EdgeMaps.fork
      [(5, 5); (5, 5); (15, 5); (15, 5); (15, 5)]%Q = Ok final /\
    frontier_loop EdgeMaps.fork
      (tl [(5, 5); (5, 5); (15, 5); (15, 5); (15, 5)]%Q) (seed initial)
    = Ok (v, u) /\
    match first_visited v final with
    | None => Some ["A"; "B"] = None
    | Some f => exists pre, Some ["A"; "B"] = Some (pre ++ [f])
    end.
Proof.
  split; [reflexivity|].
  apply (route_ends_at_first_visited_final EdgeMaps.fork 5
           [(5, 5); (5, 5); (15, 5); (15, 5); (15, 5)]%Q).
  reflexivity.
Defined.

Lemma backtrack_rest_not_initial (v : parents) (initial_lanes_ids : list string)
  (fuel : nat) (route : list string) (lane_id : option string)
  (r : list string) :
  backtrack fuel v initial_lanes_ids route lane_id = Ok r ->
  existsb (fun x => mem_str x initial_lanes_ids) route = false ->
  exists first rest,
    r = first :: rest /\
    existsb (fun x => mem_str x initial_lanes_ids) rest = false.
Proof.
  revert route lane_id.
  induction fuel as [|fuel IH]; intros route lane_id H Hstop;
    rewrite backtrack_unfold, Hstop in H; [discriminate|].
  destruct lane_id as [l|]; [|discriminate].
  apply bind_Ok in H. destruct H as (parent & _ & H).
  destruct (mem_str l initial_lanes_ids) eqn:El.
  - rewrite backtrack_unfold in H. simpl in H. rewrite El in H. simpl in H.
    injection H as <-. now exists l, route.
  - apply IH in H; [assumption|]. simpl. now rewrite El.
Qed.

(** X19. Only the first lane of a route [get_route] returns is an initial
    lane: the backtrack stops at the first initial lane it reaches. So when
    the destination lane is itself an initial lane, the route is that lane
    alone. *)
Theorem route_only_starts_at_initial (self : CustomMapAPI) (fuel : nat)
  (trajectory : list vec2) (route : list string) :
  get_route self fuel trajectory = Ok (Some route) ->
  exists initial first rest,
    initial_lanes_ids_of self trajectory = Ok initial /\
    route = first :: rest /\
    (forall x, In x rest -> ~ In x initial) /\
    (forall pre last, route = pre ++ [last] -> In last initial ->
       route = [last]).
Proof.
  intros H. apply get_route_Ok in H.
  destruct H as (initial & final & v & u & Hi & _ & _ & H).
  assert (Hr : exists first rest,
             route = first :: rest /\
             existsb (fun x => mem_str x initial) rest = false).
  { clear Hi. induction final as [|f fin IH]; simpl in H; [discriminate|].
    destruct (Dict.mem v f); simpl in H; [|now apply IH].
    apply bind_Ok in H. destruct H as (r' & H & [= <-]).
    now apply backtrack_rest_not_initial in H. }
  destruct Hr as (first & rest & -> & Hrest).
  assert (Hnot : forall x, In x rest -> ~ In x initial).
  { intros x Hx Hxi.
    assert (existsb (fun x => mem_str x initial) rest = true); [|congruence].
    apply existsb_exists. exists x. split; [assumption|].
    now apply mem_str_In. }
  exists initial, first, rest. repeat split; try assumption.
  intros pre last E Hlast. destruct rest as [|y rest]; simpl.
  - destruct pre as [|a [|b pre]]; simpl in E; try discriminate; congruence.
  - exfalso. apply (Hnot last); [|assumption].
    assert (Hin : In last (first :: y :: rest))
      by (rewrite E; apply in_or_app; right; now left).
    destruct Hin as [<-|Hin]; [|assumption].
    (* the last lane is the first one: the list has one element *)
    destruct pre as [|a pre]; [discriminate|].
    injection E as _ E.
    assert (Hl : In first (y :: rest))
      by (rewrite E; apply in_or_app; right; now left).
    exact Hl.
Qed.

(** On the test map, a drive that stays in [A]: the destination [A] is an
    initial lane and the route is [A] alone. *)
Lemma route_only_starts_at_initial_witness :
  get_route TestMap.chain 3 [(5, 5); (6, 5); (7, 5)]%Q = Ok (Some ["A"]) /\
  exists initial first rest,
    initial_lanes_ids_of TestMap.chain [(5, 5); (6, 5); (7, 5)]%Q
    = Ok initial /\
    ["A"] = first :: rest /\
    (forall x, In x rest -> ~ In x initial) /\
    (forall pre last, ["A"] = pre ++ [last] -> In last initial ->
       ["A"] = [last]).
Proof.
  split; [reflexivity|].
  apply (route_only_starts_at_initial TestMap.chain 3
           [(5, 5); (6, 5); (7, 5)]%Q).
  reflexivity.
Defined.
